(** * yggpub: the status dashboard of a Yggdrasil node

    A shallow embedding of [yggpub.go] (package [main]) and the properties
    of its dashboard handler: the aggregation of the switch peers reported
    by the admin socket into one summary per peer address, the rendering of
    the pie charts, and the error paths of the request handler.

    Conventions.
    - [uint64] values are integers in [0, 2^64); every addition and
      subtraction of the source is written with its wrap-around ([U64.add],
      [U64.sub]).
    - A JSON number decoded into [interface{}] is a [float64]; it is a
      [spec_float] at precision 53 (binary64).
    - A run-time panic (failed type assertion, index out of range) and
      [log.Fatalln] are outcomes of their own.
    - What the Go libraries and the outside world do in one run (files, the
      admin socket, the JSON codec, [fmt], the iteration order of maps) is
      gathered in the record [env]. *)

From Stdlib Require Import ZArith Ascii String Floats.SpecFloat.
From stdpp Require Import gmap strings list fin_maps pretty.

#[local] Set Warnings "-register-all".
#[local] Open Scope Z_scope.

(** ** Unsigned 64-bit arithmetic *)

Module U64.
Definition modulus : Z := 2 ^ 64.
Definition wrap (z : Z) : Z := z mod modulus.
Definition add (a b : Z) : Z := wrap (a + b).
Definition sub (a b : Z) : Z := wrap (a - b).
Definition in_range (z : Z) : Prop := 0 ≤ z < modulus.
End U64.

(** ** float64 and its conversion to uint64 *)

Definition float64 : Type := spec_float.

(** The correctly rounded binary64 value of an integer literal, as
    [strconv.ParseFloat(s, 64)] returns it for the literal of [n]. *)
Definition float64_of_Z (n : Z) : float64 := binary_normalize 53 1024 n 0 false.

(** The magnitude of a finite float, truncated towards zero. *)
Definition trunc_magnitude (m : positive) (e : Z) : Z := Z.shiftl (Z.pos m) e.

(** [uint64(f)]: the fraction is discarded; when the truncated value is not
    a uint64 the result is implementation-dependent, here [other f]. *)
Definition uint64_of_float64 (other : float64 → Z) (f : float64) : Z :=
  match f with
  | S754_zero _ => 0
  | S754_finite false m e =>
      let t := trunc_magnitude m e in
      if t <? U64.modulus then t else U64.wrap (other f)
  | S754_finite true m e =>
      if trunc_magnitude m e =? 0 then 0 else U64.wrap (other f)
  | _ => U64.wrap (other f)
  end.

(** ** JSON values, as [encoding/json] decodes them into [interface{}] *)

Inductive json : Type :=
  | JNull
  | JBool (b : bool)
  | JNumber (f : float64)
  | JString (s : string)
  | JArray (l : list json)
  | JObject (m : gmap string json).

(** ** Results of code that may panic *)

Inductive result (A : Type) : Type :=
  | Ok (a : A)
  | Panic.
Arguments Ok {A} a.
Arguments Panic {A}.

#[global] Instance result_ret : MRet result := λ A a, Ok a.
#[global] Instance result_bind : MBind result := λ A B f r,
  match r with
  | Ok a => f a
  | Panic => Panic
  end.

(** Type assertions [v.(T)] on the value found under a key; a missing key
    gives the nil interface, on which every assertion panics. *)
Definition as_string (v : option json) : result string :=
  match v with
  | Some (JString s) => Ok s
  | _ => Panic
  end.

Definition as_float64 (v : option json) : result float64 :=
  match v with
  | Some (JNumber f) => Ok f
  | _ => Panic
  end.

Definition as_object (v : option json) : result (gmap string json) :=
  match v with
  | Some (JObject m) => Ok m
  | _ => Panic
  end.

(** ** The data of the program *)

Record switchPortData : Type := {
  ports : list string;
  txbytes : Z;
  rxbytes : Z;
  coords : string
}.

Record URL : Type := {
  Scheme : string;
  Host : string;
  Path : string
}.

(** The package-level variables set from the command line. *)
Record config : Type := {
  nodename : string;
  adminaddr : string;
  listenaddr : string
}.

(** ** The environment of one run *)

Record env : Type := {
  (** [ioutil.ReadFile]: the contents of a file, or an error. *)
  ReadFile : string → option string;
  (** [url.Parse]. *)
  url_Parse : string → option URL;
  (** [net.Dial network address]: whether the connection is established. *)
  net_Dial : string → string → bool;
  (** [json.Marshal] of the request map. *)
  json_Marshal : gmap string json → option string;
  (** The bytes that the single [conn.Read] puts into the buffer. *)
  conn_Read : string;
  (** [json.Unmarshal data &m]: the contents of [m] afterwards, or an error. *)
  json_Unmarshal : string → gmap string json → option (gmap string json);
  (** [fmt.Fprintf w format] without operands: the text written for [format]. *)
  fmt_Sprintf : string → string;
  (** [humanize.Bytes]. *)
  humanize_Bytes : Z → string;
  (** [uint64(f)] where [f] has no uint64 value. *)
  uint64_other : float64 → Z;
  (** The order in which [range] visits the entries of a map. *)
  range_peers : gmap string json → list (string * json);
  range_peermap : gmap string switchPortData → list (string * switchPortData)
}.

(** [range] visits every entry of the map once, in some order. *)
Definition range_peers_sound (e : env) : Prop :=
  ∀ m, range_peers e m ≡ₚ map_to_list m.

Definition range_peermap_sound (e : env) : Prop :=
  ∀ m, range_peermap e m ≡ₚ map_to_list m.

(** ** Populating the peer map (yggpub.go, lines 143-165) *)

Section aggregate.
Context (e : env).

Definition to_uint64 (f : float64) : Z := uint64_of_float64 (uint64_other e) f.

(** The body of the loop [for k, v := range peers]. *)
Definition aggregate_step (st : gmap string switchPortData * Z)
    (kv : string * json) : result (gmap string switchPortData * Z) :=
  let '(peermap, totalbytes) := st in
  let '(k, v) := kv in
  peer ← as_object (Some v);
  peerip ← as_string (peer !! "ip");
  match peermap !! peerip with
  | Some peerdata =>
      ftx ← as_float64 (peer !! "bytes_sent");
      frx ← as_float64 (peer !! "bytes_recvd");
      let tx := to_uint64 ftx in
      let rx := to_uint64 frx in
      let peerdata' :=
        {| ports := ports peerdata ++ [k];
           txbytes := U64.add (txbytes peerdata) tx;
           rxbytes := U64.add (rxbytes peerdata) rx;
           coords := coords peerdata |} in
      Ok (<[peerip := peerdata']> peermap, U64.add totalbytes (U64.add tx rx))
  | None =>
      ftx ← as_float64 (peer !! "bytes_sent");
      frx ← as_float64 (peer !! "bytes_recvd");
      let tx := to_uint64 ftx in
      let rx := to_uint64 frx in
      c ← as_string (peer !! "coords");
      let peerdata :=
        {| ports := [] ++ [k]; txbytes := tx; rxbytes := rx; coords := c |} in
      ip ← as_string (peer !! "ip");
      Ok (<[ip := peerdata]> peermap, U64.add totalbytes (U64.add tx rx))
  end.

Fixpoint aggregate_loop (l : list (string * json))
    (st : gmap string switchPortData * Z) : result (gmap string switchPortData * Z) :=
  match l with
  | [] => Ok st
  | kv :: l' => st' ← aggregate_step st kv; aggregate_loop l' st'
  end.

(** [peermap] and [totalbytes] after the loop over [peers]. *)
Definition aggregate (peers : gmap string json) : result (gmap string switchPortData * Z) :=
  aggregate_loop (range_peers e peers) (∅, 0).
End aggregate.

Arguments aggregate_step : simpl never.

(** ** Strings *)

Definition nl : string := String "010"%char EmptyString.

(** [strings.Replace s old new (-1)] for a non-empty [old]: every
    non-overlapping occurrence of [old], from the left, becomes [new].
    [skip] counts the bytes of a matched occurrence still to be dropped. *)
Fixpoint Replace_from (skip : nat) (old new s : string) : string :=
  match s with
  | EmptyString => EmptyString
  | String c s' =>
      match skip with
      | S k => Replace_from k old new s'
      | O =>
          if String.prefix old s
          then new +:+ Replace_from (Nat.pred (String.length old)) old new s'
          else String c (Replace_from O old new s')
      end
  end.

Definition Replace (s old new : string) : string := Replace_from O old new s.

(** [strings.Split s "/"]. *)
Fixpoint Split_slash (s : string) : list string :=
  match s with
  | EmptyString => [EmptyString]
  | String c s' =>
      if Ascii.eqb c "/"%char then EmptyString :: Split_slash s'
      else match Split_slash s' with
           | t :: ts => String c t :: ts
           | [] => [String c EmptyString]
           end
  end.

(** ** Rendering the peers (yggpub.go, lines 167-196) *)

(** The state of the rendering loop: the [strings.Builder], [count] and
    [offset].  [count] is an [int] that counts map entries; it stays far
    below 2^63 and is kept as an integer. *)
Record render_state : Type := {
  str : string;
  count : Z;
  offset : Z
}.

Definition render_init : render_state := {| str := ""; count := 0; offset := 0 |}.

(** The text of the variable [ports] (lines 171-176); [peer.ports[0]]
    panics on an empty slice. *)
Definition ports_text (peer : switchPortData) : result string :=
  if (1 <? length (ports peer))%nat
  then Ok ("switch ports " +:+ String.concat ", " (ports peer))
  else match ports peer with
       | p :: _ => Ok ("switch port " +:+ p)
       | [] => Panic
       end.

(** Lines 177-179. *)
Definition shown_coords (peer : switchPortData) : string :=
  if String.eqb (coords peer) "[]" then "Root" else coords peer.

(** The four operands of [series: [%d, %d, %d, %d]] (line 183). *)
Definition chart_series (totalbytes off : Z) (peer : switchPortData) : list Z :=
  [off; txbytes peer; rxbytes peer;
   U64.sub (U64.sub (U64.sub totalbytes off) (txbytes peer)) (rxbytes peer)].

Definition series_text (series : list Z) : string :=
  String.concat ", " (pretty <$> series).

Section render.
Context (e : env).

(** What one iteration appends to the builder (lines 180-188). *)
Definition node_html (totalbytes : Z) (st : render_state) (ipv6 : string)
    (peer : switchPortData) (ports_s : string) : string :=
  "<div class='node'>" +:+ nl +:+
  "<div class='ct-chart ct-perfect-fourth' id='ct-" +:+ pretty (count st) +:+ "'></div>" +:+ nl +:+
  "<script>" +:+ nl +:+ "new Chartist.Pie('#ct-" +:+ pretty (count st) +:+
    "', { series: [" +:+ series_text (chart_series totalbytes (offset st) peer) +:+
    "] }, { donut: true, donutWidth: 25, donutSolid: true, startbytes: 0, showLabel: false });" +:+
    nl +:+ "</script>" +:+ nl +:+
  "<div id='ipv6'>" +:+ ipv6 +:+ "</div>" +:+ nl +:+
  "<div>" +:+ shown_coords peer +:+ " attached to " +:+ ports_s +:+ "</div>" +:+ nl +:+
  "<div>" +:+ humanize_Bytes e (txbytes peer) +:+ " sent</div>" +:+ nl +:+
  "<div>" +:+ humanize_Bytes e (rxbytes peer) +:+ " received</div>" +:+ nl +:+
  "</div>" +:+ nl.

(** The body of the loop [for ipv6, peer := range peermap]. *)
Definition render_step (totalbytes : Z) (st : render_state)
    (kv : string * switchPortData) : result render_state :=
  let '(ipv6, peer) := kv in
  ports_s ← ports_text peer;
  Ok {| str := str st +:+ node_html totalbytes st ipv6 peer ports_s;
        count := count st + 1;
        offset := U64.add (offset st) (U64.add (rxbytes peer) (txbytes peer)) |}.

Fixpoint render_loop (totalbytes : Z) (l : list (string * switchPortData))
    (st : render_state) : result render_state :=
  match l with
  | [] => Ok st
  | kv :: l' => st' ← render_step totalbytes st kv; render_loop totalbytes l' st'
  end.

Definition no_peers_notice : string :=
  "<div>There are no connected peers at this time.</div>".

(** The contents of the builder [str] at line 198. *)
Definition render (peermap : gmap string switchPortData) (totalbytes : Z) : result string :=
  st ← render_loop totalbytes (range_peermap e peermap) render_init;
  Ok (if (size peermap =? 0)%nat then str st +:+ no_peers_notice else str st).
End render.

Arguments render_step : simpl never.

(** ** The request handlers *)

(** How a request ends.  In a handler of the program: [log.Fatalln] stops
    the process, a panic unwinds the handler, or the handler returns after
    the listed writes to the [http.ResponseWriter].  Without any handler of
    the program: the mux answers by itself, with a redirect to [location]
    or with Bad Request. *)
Inductive outcome : Type :=
  | Exit
  | Panicked
  | Returned (writes : list string)
  | Redirected (location : string)
  | Refused.

Definition request_map : gmap string json :=
  <["request" := JString "getSwitchPeers"]> ∅.

Section handlers.
Context (e : env) (cfg : config).

(** The page sent on an error path: only [%PEERS%] is substituted. *)
Definition error_page (b msg : string) : outcome :=
  Returned [fmt_Sprintf e (Replace b "%PEERS%" msg)].

(** Lines 132-201, once the response showed success. *)
Definition peers_page (b : string) (m : gmap string json) : result string :=
  response ← as_object (m !! "response");
  peers ← as_object (response !! "switchpeers");
  agg ← aggregate e peers;
  s ← render e agg.1 agg.2;
  let b1 := Replace b "%HOSTNAME%" (nodename cfg) in
  let b2 := Replace b1 "%PEERS%" s in
  Ok (fmt_Sprintf e b2).

(** [func handler(w http.ResponseWriter, r *http.Request)]. *)
Definition handler : outcome :=
  match ReadFile e "template.html" with
  | None => Exit
  | Some b =>
      match url_Parse e (adminaddr cfg) with
      | None => Exit
      | Some admin =>
          let a := if String.eqb (Scheme admin) "unix" then Path admin else Host admin in
          if negb (net_Dial e (Scheme admin) a) then Returned []
          else
            let m := request_map in
            match json_Marshal e m with
            | None => error_page b "Unable to marshal JSON"
            | Some j =>
                let buff := conn_Read e in
                if (String.length buff =? 0)%nat
                then error_page b "No response from admin socket"
                else
                  match json_Unmarshal e buff m with
                  | None => error_page b "Unable to unmarshal JSON"
                  | Some m' =>
                      match as_string (m' !! "status") with
                      | Panic => Panicked
                      | Ok status =>
                          if negb (String.eqb status "success")
                          then error_page b "Non-successful response"
                          else match peers_page b m' with
                               | Panic => Panicked
                               | Ok page => Returned [page]
                               end
                      end
                  end
            end
      end
  end.

(** [func filehandler(w http.ResponseWriter, r *http.Request)], for the
    request path [path]. *)
Definition filehandler (path : string) : outcome :=
  let tokens := Split_slash path in
  match last tokens with
  | None => Panicked
  | Some name =>
      match ReadFile e name with
      | None => Exit
      | Some b => Returned [b]
      end
  end.
End handlers.

(** ** Start-up and dispatch ([func main]) *)

(** The command line, as [flag.Parse] reads it: the flags that were given. *)
Record flags : Type := {
  flag_nodename : option string;
  flag_adminaddr : option string;
  flag_listenaddr : option string
}.

(** The handler that the mux picks for a request: one of the two that
    [main] registers, the mux's own redirect handler, or none. *)
Inductive route : Type :=
  | Dashboard
  | StaticFile
  | Redirect (location : string)
  | BadRequest.

(** The patterns registered with [http.HandleFunc]. *)
Definition mux : list (string * route) :=
  [("/", Dashboard); ("/style.css", StaticFile);
   ("/chartist.min.css", StaticFile); ("/chartist.min.js", StaticFile)].

(** [path.Clean] on the elements of a rooted path: empty elements and
    ["."] are dropped, [".."] drops the element kept last (and is itself
    dropped at the root).  [kept] holds the elements kept so far, the last
    one first. *)
Fixpoint clean_elements (kept elems : list string) : list string :=
  match elems with
  | [] => reverse kept
  | x :: elems' =>
      if String.eqb x "" || String.eqb x "." then clean_elements kept elems'
      else if String.eqb x ".." then clean_elements (tail kept) elems'
      else clean_elements (x :: kept) elems'
  end.

(** [p[len(p)-1]]. *)
Fixpoint last_byte (p : string) : option ascii :=
  match p with
  | EmptyString => None
  | String c EmptyString => Some c
  | String _ p' => last_byte p'
  end.

(** The canonical form of a request path in [net/http]: the path is made
    rooted and cleaned with [path.Clean], and a trailing slash is kept. *)
Definition cleanPath (p : string) : string :=
  if String.eqb p "" then "/"
  else
    let p := if String.prefix "/" p then p else "/" +:+ p in
    let np := "/" +:+ String.concat "/" (clean_elements [] (Split_slash p)) in
    if bool_decide (last_byte p = Some "/"%char) && negb (String.eqb np "/")
    then np +:+ "/"
    else np.

(** The default mux, for a request of any method but CONNECT whose target
    is sent without percent-escapes; [path] is then [r.URL.Path], the path
    as it was sent.  The request target ["*"] is refused.  A path that is
    not in canonical form is answered with a redirect to its canonical
    form.  Otherwise a pattern without a trailing slash matches its path
    only, and ["/"] matches every other path. *)
Definition dispatch (path : string) : route :=
  if String.eqb path "*" then BadRequest
  else if negb (String.eqb (cleanPath path) path) then Redirect (cleanPath path)
  else
    match list_find (λ pr, pr.1 ≠ "/" ∧ pr.1 = path) mux with
    | Some (_, (_, r)) => r
    | None => Dashboard
    end.

Inductive process : Type :=
  | Serving (cfg : config)
  | Exited.

Section main.
Context (hostname : option string) (listen : string → bool) (args : flags).

(** Lines 23-33: the values of [nodename], [adminaddr] and [listenaddr]. *)
Definition configure : config :=
  let hostname' := default "Unnamed node" hostname in
  {| nodename := default hostname' (flag_nodename args);
     adminaddr := default "unix:///var/run/yggdrasil.sock" (flag_adminaddr args);
     listenaddr := default "[::]:80" (flag_listenaddr args) |}.

(** [main]: the handlers are registered and [http.ListenAndServe] is
    called; it serves until it fails, and its failure is fatal.  [listen]
    tells whether the listen address can be served. *)
Definition main : process :=
  let cfg := configure in
  if listen (listenaddr cfg) then Serving cfg else Exited.
End main.

(** One request handled by a serving process. *)
Definition serve (e : env) (cfg : config) (path : string) : outcome :=
  match dispatch path with
  | Dashboard => handler e cfg
  | StaticFile => filehandler e path
  | Redirect location => Redirected location
  | BadRequest => Refused
  end.

(** ** Views used in the statements *)

(** The fields of a raw link record, as the loop reads them. *)
Definition link_field (name : string) (v : json) : option json :=
  match v with
  | JObject peer => peer !! name
  | _ => None
  end.

Definition link_ip (v : json) : option string :=
  match link_field "ip" v with
  | Some (JString s) => Some s
  | _ => None
  end.

Definition link_coords (v : json) : option string :=
  match link_field "coords" v with
  | Some (JString s) => Some s
  | _ => None
  end.

Definition link_counter (e : env) (name : string) (v : json) : Z :=
  match link_field name v with
  | Some (JNumber f) => to_uint64 e f
  | _ => 0
  end.

Definition link_tx (e : env) (v : json) : Z := link_counter e "bytes_sent" v.
Definition link_rx (e : env) (v : json) : Z := link_counter e "bytes_recvd" v.

(** A record on which no type assertion of the loop fails. *)
Definition well_formed_link (v : json) : bool :=
  match link_field "ip" v, link_field "bytes_sent" v,
        link_field "bytes_recvd" v, link_field "coords" v with
  | Some (JString _), Some (JNumber _), Some (JNumber _), Some (JString _) => true
  | _, _, _, _ => false
  end.

(** The admin socket was reached and its answer was decoded: the handler
    arrives at line 126 with the template [b] and the map [m]. *)
Definition answered (e : env) (cfg : config) (b : string) (m : gmap string json) : Prop :=
  ReadFile e "template.html" = Some b ∧
  (∃ admin, url_Parse e (adminaddr cfg) = Some admin ∧
            net_Dial e (Scheme admin)
              (if String.eqb (Scheme admin) "unix" then Path admin else Host admin) = true) ∧
  is_Some (json_Marshal e request_map) ∧
  conn_Read e ≠ "" ∧
  json_Unmarshal e (conn_Read e) request_map = Some m.

(** Every summary has a link id. *)
Definition ports_nonempty (peermap : gmap string switchPortData) : Prop :=
  map_Forall (λ _ d, ports d ≠ []) peermap.

(** What a record does to the summary [d] of its peer address: the branch
    taken at line 147 when [d] is present, the one at line 154 otherwise. *)
Definition absorb (e : env) (d : option switchPortData) (kv : string * json) : switchPortData :=
  match d with
  | Some d0 =>
      {| ports := ports d0 ++ [kv.1];
         txbytes := U64.add (txbytes d0) (link_tx e kv.2);
         rxbytes := U64.add (rxbytes d0) (link_rx e kv.2);
         coords := coords d0 |}
  | None =>
      {| ports := [kv.1];
         txbytes := link_tx e kv.2;
         rxbytes := link_rx e kv.2;
         coords := default "" (link_coords kv.2) |}
  end.

(** The records of a list that carry the peer address [a], in order. *)
Definition links_of (a : string) (l : list (string * json)) : list (string * json) :=
  filter (λ kv, link_ip kv.2 = Some a) l.

(** Sums of integers over a list. *)
Definition Zsum {A : Type} (f : A → Z) (l : list A) : Z :=
  foldr (λ x acc, f x + acc) 0 l.

(** Sent plus received bytes of a raw link record and of a summary. *)
Definition raw_bytes (e : env) (kv : string * json) : Z :=
  link_tx e kv.2 + link_rx e kv.2.

Definition summary_bytes (kd : string * switchPortData) : Z :=
  txbytes kd.2 + rxbytes kd.2.

(** The summaries hold uint64 counters. *)
Definition counters_in_range (peermap : gmap string switchPortData) : Prop :=
  map_Forall (λ _ d, U64.in_range (txbytes d) ∧ U64.in_range (rxbytes d)) peermap.

(** The text [t] occurs in [s]. *)
Fixpoint contains (t s : string) : bool :=
  String.prefix t s ||
  match s with
  | EmptyString => false
  | String _ s' => contains t s'
  end.

(** The character [c] does not occur in [s]. *)
Fixpoint free_of (c : ascii) (s : string) : bool :=
  match s with
  | EmptyString => true
  | String b s' => negb (Ascii.eqb c b) && free_of c s'
  end.

(** A record that passes the type assertions on its address and counters
    (lines 145-148 and 155); the coordinate path is asserted only in the
    branch of line 154. *)
Definition typed_link (v : json) : bool :=
  match link_field "ip" v, link_field "bytes_sent" v, link_field "bytes_recvd" v with
  | Some (JString _), Some (JNumber _), Some (JNumber _) => true
  | _, _, _ => false
  end.

(** The link ids held by all summaries of a peer map. *)
Definition all_ports (peermap : gmap string switchPortData) : list string :=
  concat ((λ kd, ports kd.2) <$> map_to_list peermap).

(** A switch peer as the admin socket reports it, decoded: the counters
    are the float64 values of the integer literals [sent] and [recvd]. *)
Definition link_record (ip : string) (sent recvd : Z) (c : string) : json :=
  JObject (<["ip" := JString ip]>
          (<["bytes_sent" := JNumber (float64_of_Z sent)]>
          (<["bytes_recvd" := JNumber (float64_of_Z recvd)]>
          (<["coords" := JString c]> ∅)))).

(** ** Sample data *)

Module Sample.

(** The request map after a successful response listing [peers] was
    decoded into it. *)
Definition reply (peers : gmap string json) : gmap string json :=
  <["status" := JString "success"]>
  (<["response" := JObject (<["switchpeers" := JObject peers]> ∅)]> request_map).

Definition socket : URL :=
  {| Scheme := "unix"; Host := ""; Path := "/var/run/yggdrasil.sock" |}.

(** A run in which the template file holds [template], [net.Dial]
    succeeds or not, the admin socket sends [data] and the decoding of a
    non-empty [data] leaves [decoded] in the request map; [fmt] is what
    [fmt.Fprintf] writes for a format without operands.  [url.Parse] is
    given on the default socket address; it rejects every other address
    used below ([":9001"] has no scheme). *)
Definition run (fmt : string → string) (template : string) (dial_ok : bool)
    (data : string) (decoded : option (gmap string json)) : env :=
  {| ReadFile := λ name,
       if String.eqb name "template.html" then Some template
       else if String.eqb name "style.css" then Some "body { margin: 0 }"
       else None;
     url_Parse := λ s,
       if String.eqb s "unix:///var/run/yggdrasil.sock" then Some socket else None;
     net_Dial := λ _ _, dial_ok;
     json_Marshal := λ _, Some "{request: getSwitchPeers}";
     conn_Read := data;
     json_Unmarshal := λ _ _, decoded;
     fmt_Sprintf := fmt;
     humanize_Bytes := λ n, pretty n +:+ " B";
     uint64_other := λ _, 0;
     range_peers := map_to_list;
     range_peermap := map_to_list |}.

(** The admin socket answers; a text without verbs is written as it is. *)
Definition world (template : string) (decoded : option (gmap string json)) : env :=
  run (λ s, s) template true "{...}" decoded.

Definition page : string := "<h1>%HOSTNAME%</h1>%PEERS%".

Definition cfg : config :=
  {| nodename := "node1";
     adminaddr := "unix:///var/run/yggdrasil.sock";
     listenaddr := "[::]:80" |}.

(** Three links to two peers; links 1 and 3 lead to the same address. *)
Definition three_links : gmap string json :=
  <["1" := link_record "200::1" 10 20 "[1]"]>
  (<["2" := link_record "200::2" 5 5 "[]"]>
  (<["3" := link_record "200::1" 1 1 "[1 2]"]> ∅)).

(** The peer map that [three_links] aggregates to when [range] follows
    [map_to_list], which visits link 3 before link 1. *)
Definition three_summaries : gmap string switchPortData :=
  <["200::1" := {| ports := ["3"; "1"]; txbytes := 11; rxbytes := 21; coords := "[1 2]" |}]>
  (<["200::2" := {| ports := ["2"]; txbytes := 5; rxbytes := 5; coords := "[]" |}]> ∅).

(** The same run with [range] visiting every map in the opposite order. *)
Definition backwards (e : env) : env :=
  {| ReadFile := ReadFile e;
     url_Parse := url_Parse e;
     net_Dial := net_Dial e;
     json_Marshal := json_Marshal e;
     conn_Read := conn_Read e;
     json_Unmarshal := json_Unmarshal e;
     fmt_Sprintf := fmt_Sprintf e;
     humanize_Bytes := humanize_Bytes e;
     uint64_other := uint64_other e;
     range_peers := λ m, reverse (range_peers e m);
     range_peermap := λ m, reverse (range_peermap e m) |}.

(** The peer map that [three_links] aggregates to in that order: link 1 is
    met before link 3. *)
Definition three_summaries_backwards : gmap string switchPortData :=
  <["200::1" := {| ports := ["1"; "3"]; txbytes := 11; rxbytes := 21; coords := "[1]" |}]>
  (<["200::2" := {| ports := ["2"]; txbytes := 5; rxbytes := 5; coords := "[]" |}]> ∅).

(** Two links to two peers, each having sent [2^63] bytes. *)
Definition heavy_links : gmap string json :=
  <["1" := link_record "200::1" (2 ^ 63) 0 "[1]"]>
  (<["2" := link_record "200::2" (2 ^ 63) 0 "[2]"]> ∅).

Definition heavy_summaries : gmap string switchPortData :=
  <["200::1" := {| ports := ["1"]; txbytes := 2 ^ 63; rxbytes := 0; coords := "[1]" |}]>
  (<["200::2" := {| ports := ["2"]; txbytes := 2 ^ 63; rxbytes := 0; coords := "[2]" |}]> ∅).

(** Two links to one peer, each having sent [2^63] bytes; the summary's
    counter wraps around to 0. *)
Definition heavy_pair : gmap string json :=
  <["1" := link_record "200::1" (2 ^ 63) 0 "[1]"]>
  (<["2" := link_record "200::1" (2 ^ 63) 0 "[1]"]> ∅).

Definition heavy_pair_summaries : gmap string switchPortData :=
  {["200::1" := {| ports := ["1"; "2"]; txbytes := 0; rxbytes := 0; coords := "[1]" |}]}.

End Sample.

(** * Properties *)

(** ** Unsigned arithmetic *)

Lemma modulus_pos : 0 < U64.modulus.
Proof. reflexivity. Qed.

Lemma wrap_range z : U64.in_range (U64.wrap z).
Proof. apply Z.mod_pos_bound, modulus_pos. Qed.

Lemma zero_in_range : U64.in_range 0.
Proof. split; [done | apply modulus_pos]. Qed.

Lemma wrap_small z : U64.in_range z → U64.wrap z = z.
Proof. intros Hz. apply Z.mod_small, Hz. Qed.

(** [wrap z] differs from [z] by a multiple of [2^64]. *)
Lemma wrap_cong z : ∃ k, U64.wrap z = z + k * U64.modulus.
Proof.
  exists (- (z / U64.modulus)). unfold U64.wrap.
  pose proof (Z.div_mod z U64.modulus) as H.
  pose proof modulus_pos. lia.
Qed.

Lemma wrap_eq_of_cong a b k : a = b + k * U64.modulus → U64.wrap a = U64.wrap b.
Proof. intros ->. unfold U64.wrap. apply Z_mod_plus_full. Qed.

Lemma to_uint64_range e f : U64.in_range (to_uint64 e f).
Proof.
  unfold to_uint64, uint64_of_float64.
  destruct f as [s|s| |[] m x]; try apply wrap_range.
  - split; [done | apply modulus_pos].
  - case_match; [|apply wrap_range]. split; [done | apply modulus_pos].
  - unfold trunc_magnitude. case_match eqn:Hlt; [|apply wrap_range].
    apply Z.ltb_lt in Hlt. split; [|done]. by apply Z.shiftl_nonneg.
Qed.

Lemma link_counter_range e name v : U64.in_range (link_counter e name v).
Proof.
  unfold link_counter. repeat case_match; try apply to_uint64_range;
    (split; [done | apply modulus_pos]).
Qed.

Lemma add_range a b : U64.in_range (U64.add a b).
Proof. apply wrap_range. Qed.

Lemma link_tx_range e v : U64.in_range (link_tx e v).
Proof. apply link_counter_range. Qed.

Lemma link_rx_range e v : U64.in_range (link_rx e v).
Proof. apply link_counter_range. Qed.

Create HintDb u64.
#[local] Hint Resolve wrap_range add_range zero_in_range to_uint64_range
  link_counter_range link_tx_range link_rx_range : u64.

Lemma raw_bytes_nonneg e kv : 0 ≤ raw_bytes e kv.
Proof.
  pose proof (link_counter_range e "bytes_sent" kv.2) as [? _].
  pose proof (link_counter_range e "bytes_recvd" kv.2) as [? _].
  unfold raw_bytes, link_tx, link_rx. lia.
Qed.

(** ** Concatenation of strings *)

Lemma append_cons (x : ascii) (a b : string) : String x a +:+ b = String x (a +:+ b).
Proof. reflexivity. Qed.

Lemma append_assoc (a b c : string) : (a +:+ b) +:+ c = a +:+ (b +:+ c).
Proof. induction a as [|x a IH]; [done|]. by rewrite !append_cons, IH. Qed.

Lemma append_nil_r (a : string) : a +:+ "" = a.
Proof. induction a as [|x a IH]; [done|]. by rewrite append_cons, IH. Qed.

Lemma prefix_append (a s : string) : String.prefix a (a +:+ s) = true.
Proof.
  induction a as [|x a IH]; [by destruct s|]. rewrite append_cons. simpl.
  destruct (ascii_dec x x); [done|congruence].
Qed.

(** A text that occurs in [s] occurs in every text that ends with [s]. *)
Lemma contains_skip (pre t s : string) :
  contains t s = true → contains t (pre +:+ s) = true.
Proof.
  intros Hs. induction pre as [|x pre IH]; [done|].
  rewrite append_cons. cbn [contains]. rewrite IH. apply orb_true_r.
Qed.

(** ** Sums *)

Lemma Zsum_cons {A} (f : A → Z) x l : Zsum f (x :: l) = f x + Zsum f l.
Proof. reflexivity. Qed.

Lemma Zsum_app {A} (f : A → Z) l1 l2 : Zsum f (l1 ++ l2) = Zsum f l1 + Zsum f l2.
Proof. induction l1 as [|x l1 IH]; [done|]. rewrite <- app_comm_cons, !Zsum_cons, IH. lia. Qed.

Lemma Zsum_perm {A} (f : A → Z) l1 l2 : l1 ≡ₚ l2 → Zsum f l1 = Zsum f l2.
Proof.
  induction 1 as [|x l1 l2 _ IH|x y l|l1 l2 l3 _ IH1 _ IH2];
    rewrite ?Zsum_cons; lia.
Qed.

Lemma Zsum_nonneg {A} (f : A → Z) l : (∀ x, x ∈ l → 0 ≤ f x) → 0 ≤ Zsum f l.
Proof.
  induction l as [|x l IH]; intros H; [done|]. rewrite Zsum_cons.
  assert (0 ≤ f x) by (apply H; left).
  assert (0 ≤ Zsum f l) by (apply IH; intros; apply H; by right). lia.
Qed.

(** The sum over a map after a fresh key is added. *)
Lemma Zsum_insert_fresh {V} (f : string * V → Z) (m : gmap string V) i x :
  m !! i = None →
  Zsum f (map_to_list (<[i:=x]> m)) = f (i, x) + Zsum f (map_to_list m).
Proof. intros H. by rewrite (Zsum_perm f _ _ (map_to_list_insert m i x H)). Qed.

(** The sum over a map after the value of a present key is replaced. *)
Lemma Zsum_insert_present {V} (f : string * V → Z) (m : gmap string V) i x0 x :
  m !! i = Some x0 →
  Zsum f (map_to_list (<[i:=x]> m)) = f (i, x) - f (i, x0) + Zsum f (map_to_list m).
Proof.
  intros H.
  rewrite <- (insert_delete_eq m i x), Zsum_insert_fresh by apply lookup_delete_eq.
  rewrite <- (Zsum_perm f _ _ (map_to_list_delete m i x0 H)), Zsum_cons. lia.
Qed.

(** ** The aggregation loop *)

(** One more iteration of the loop: either it panics, and so does the
    loop, or it gives the next peer map and total. *)
Ltac aggregate_iteration e pm t k v pm1 t1 Hstep :=
  destruct (aggregate_step e (pm, t) (k, v)) as [[pm1 t1]|] eqn:Hstep;
  simpl; [|discriminate].

Section aggregate_facts.
Context (e : env).

(** One iteration, read off the code: the record's address is looked up
    and its summary is replaced by [absorb]. *)
Lemma aggregate_step_inv pm t k v pm' t' :
  aggregate_step e (pm, t) (k, v) = Ok (pm', t') →
  ∃ ip, link_ip v = Some ip ∧
        pm' = <[ip := absorb e (pm !! ip) (k, v)]> pm ∧
        t' = U64.add t (U64.add (link_tx e v) (link_rx e v)) ∧
        (pm !! ip = None → is_Some (link_coords v)).
Proof.
  unfold aggregate_step, absorb, link_ip, link_coords, link_tx, link_rx,
    link_counter, link_field.
  destruct v as [| | | | |peer]; try discriminate. simpl.
  destruct (peer !! "ip") as [[| | |ip| |]|] eqn:Hip; try discriminate. simpl.
  destruct (pm !! ip) as [d0|] eqn:Hd;
    destruct (peer !! "bytes_sent") as [[| |ftx| | |]|]; try discriminate;
    destruct (peer !! "bytes_recvd") as [[| |frx| | |]|]; try discriminate; simpl.
  - intros [= <- <-]. exists ip. rewrite Hd. split_and!; [done..|]. intros; discriminate.
  - destruct (peer !! "coords") as [[| | |c| |]|]; try discriminate. simpl.
    intros [= <- <-]. exists ip. rewrite Hd. split_and!; eauto.
Qed.

(** A well-formed record never makes the iteration panic. *)
Lemma aggregate_step_total st k v :
  well_formed_link v = true → ∃ st', aggregate_step e st (k, v) = Ok st'.
Proof.
  destruct st as [pm t]. unfold well_formed_link, aggregate_step, link_field.
  destruct v as [| | | | |peer]; try discriminate. simpl.
  destruct (peer !! "ip") as [[| | |ip| |]|]; try discriminate.
  destruct (peer !! "bytes_sent") as [[| |ftx| | |]|]; try discriminate.
  destruct (peer !! "bytes_recvd") as [[| |frx| | |]|]; try discriminate.
  destruct (peer !! "coords") as [[| | |c| |]|]; try discriminate.
  intros _. simpl. destruct (pm !! ip); simpl; eauto.
Qed.

Lemma aggregate_loop_total l st :
  Forall (λ kv, well_formed_link kv.2 = true) l → ∃ st', aggregate_loop e l st = Ok st'.
Proof.
  intros Hl. revert st. induction Hl as [|[k v] l Hv _ IH]; intros st; simpl; [eauto|].
  destruct (aggregate_step_total st k v Hv) as [st1 ->]. simpl. apply IH.
Qed.

Lemma absorb_in_range d kv :
  (∀ d0, d = Some d0 → U64.in_range (txbytes d0) ∧ U64.in_range (rxbytes d0)) →
  U64.in_range (txbytes (absorb e d kv)) ∧ U64.in_range (rxbytes (absorb e d kv)).
Proof.
  intros Hd. destruct d as [d0|]; simpl; split; auto with u64.
Qed.

(** The summaries stay uint64 counters. *)
Lemma aggregate_loop_in_range l st st' :
  aggregate_loop e l st = Ok st' → counters_in_range st.1 → counters_in_range st'.1.
Proof.
  revert st. induction l as [|[k v] l IH]; intros [pm t]; simpl.
  - by intros [= <-].
  - aggregate_iteration e pm t k v pm1 t1 Hstep.
    intros Hloop Hpm. apply (IH _ Hloop). simpl.
    apply aggregate_step_inv in Hstep as (ip & _ & -> & _ & _).
    apply map_Forall_insert_2; [|done].
    apply absorb_in_range. intros d0 Hd0. by apply (Hpm ip).
Qed.

(** The byte count of a summary after it absorbed a record, up to a
    multiple of [2^64]. *)
Lemma absorb_bytes_cong ip d kv :
  ∃ j, summary_bytes (ip, absorb e d kv) =
       from_option (λ d0, summary_bytes (ip, d0)) 0 d + raw_bytes e kv + j * U64.modulus.
Proof.
  destruct d as [d0|]; unfold summary_bytes, raw_bytes; simpl.
  - unfold U64.add.
    destruct (wrap_cong (txbytes d0 + link_tx e kv.2)) as [j1 ->].
    destruct (wrap_cong (rxbytes d0 + link_rx e kv.2)) as [j2 ->].
    exists (j1 + j2). lia.
  - exists 0. lia.
Qed.

Lemma Zsum_insert_absorb (pm : gmap string switchPortData) ip d' :
  Zsum summary_bytes (map_to_list (<[ip:=d']> pm)) =
  summary_bytes (ip, d') - from_option (λ d0, summary_bytes (ip, d0)) 0 (pm !! ip)
  + Zsum summary_bytes (map_to_list pm).
Proof.
  destruct (pm !! ip) as [d0|] eqn:Hd; simpl.
  - by apply Zsum_insert_present.
  - rewrite Zsum_insert_fresh by done. lia.
Qed.

(** Conservation modulo [2^64]: the bytes of the summaries and the running
    total grow by the bytes of the records, up to wrap-around. *)
Lemma aggregate_loop_cong l st st' :
  aggregate_loop e l st = Ok st' →
  ∃ j1 j2,
    Zsum summary_bytes (map_to_list st'.1) =
      Zsum summary_bytes (map_to_list st.1) + Zsum (raw_bytes e) l + j1 * U64.modulus ∧
    st'.2 = st.2 + Zsum (raw_bytes e) l + j2 * U64.modulus.
Proof.
  revert st. induction l as [|[k v] l IH]; intros [pm t]; simpl.
  - intros [= <-]. exists 0, 0. simpl. lia.
  - aggregate_iteration e pm t k v pm1 t1 Hstep.
    intros Hloop. destruct (IH _ Hloop) as (j1 & j2 & -> & ->). simpl.
    apply aggregate_step_inv in Hstep as (ip & _ & -> & -> & _).
    rewrite Zsum_insert_absorb, ?Zsum_cons.
    destruct (absorb_bytes_cong ip (pm !! ip) (k, v)) as [j3 ->].
    unfold U64.add.
    destruct (wrap_cong (link_tx e v + link_rx e v)) as [j4 ->].
    destruct (wrap_cong (t + (link_tx e v + link_rx e v + j4 * U64.modulus))) as [j5 ->].
    exists (j1 + j3), (j2 + j4 + j5). unfold raw_bytes. simpl. lia.
Qed.

(** The bytes of one summary are at most the bytes of all summaries. *)
Lemma summary_bytes_le_Zsum (pm : gmap string switchPortData) ip d0 :
  counters_in_range pm → pm !! ip = Some d0 →
  summary_bytes (ip, d0) ≤ Zsum summary_bytes (map_to_list pm).
Proof.
  intros Hpm Hd.
  rewrite <- (Zsum_perm _ _ _ (map_to_list_delete pm ip d0 Hd)), Zsum_cons.
  assert (0 ≤ Zsum summary_bytes (map_to_list (delete ip pm))); [|lia].
  apply Zsum_nonneg. intros [i d] Hin%elem_of_map_to_list.
  apply lookup_delete_Some in Hin as [_ Hin].
  destruct (Hpm i d Hin) as [[? _] [? _]]. unfold summary_bytes. simpl. lia.
Qed.

Lemma aggregate_loop_total_in_range l st st' :
  aggregate_loop e l st = Ok st' → U64.in_range st.2 → U64.in_range st'.2.
Proof.
  revert st. induction l as [|[k v] l IH]; intros [pm t]; simpl.
  - by intros [= <-].
  - aggregate_iteration e pm t k v pm1 t1 Hstep.
    intros Hloop _. apply (IH _ Hloop). simpl.
    apply aggregate_step_inv in Hstep as (ip & _ & _ & -> & _). auto with u64.
Qed.

(** Exact conservation while nothing wraps around. *)
Lemma aggregate_loop_exact l st st' :
  aggregate_loop e l st = Ok st' →
  counters_in_range st.1 → 0 ≤ st.2 →
  Zsum summary_bytes (map_to_list st.1) + Zsum (raw_bytes e) l < U64.modulus →
  st.2 + Zsum (raw_bytes e) l < U64.modulus →
  Zsum summary_bytes (map_to_list st'.1) =
    Zsum summary_bytes (map_to_list st.1) + Zsum (raw_bytes e) l ∧
  st'.2 = st.2 + Zsum (raw_bytes e) l.
Proof.
  revert st. induction l as [|[k v] l IH]; intros [pm t].
  - simpl. intros [= <-] _ _ _ _. simpl. lia.
  - rewrite Zsum_cons. cbn [aggregate_loop fst snd].
    aggregate_iteration e pm t k v pm1 t1 Hstep.
    intros Hloop Hpm Ht HS HT.
    assert (Hpm1 : counters_in_range pm1).
    { apply (aggregate_loop_in_range [(k, v)] (pm, t) (pm1, t1)); [|done].
      simpl. by rewrite Hstep. }
    apply aggregate_step_inv in Hstep as (ip & _ & -> & -> & _).
    change (raw_bytes e (k, v)) with (link_tx e v + link_rx e v) in *.
    pose proof (link_counter_range e "bytes_sent" v) as [Htx _].
    pose proof (link_counter_range e "bytes_recvd" v) as [Hrx _].
    fold (link_tx e v) in Htx. fold (link_rx e v) in Hrx.
    assert (0 ≤ Zsum (raw_bytes e) l) as Hrest
      by (apply Zsum_nonneg; intros; apply raw_bytes_nonneg).
    assert (Hsum1 : Zsum summary_bytes (map_to_list (<[ip:=absorb e (pm !! ip) (k, v)]> pm))
             = Zsum summary_bytes (map_to_list pm) + (link_tx e v + link_rx e v)).
    { rewrite Zsum_insert_absorb. destruct (pm !! ip) as [d0|] eqn:Hd; simpl.
      - pose proof (summary_bytes_le_Zsum pm ip d0 Hpm Hd) as Hle.
        destruct (Hpm ip d0 Hd) as [[? _] [? _]].
        change (summary_bytes (ip, d0)) with (txbytes d0 + rxbytes d0) in *.
        unfold summary_bytes at 1. simpl. unfold U64.add.
        rewrite !wrap_small by (unfold U64.in_range; lia). lia.
      - unfold summary_bytes at 1. simpl. lia. }
    assert (Ht1 : U64.add t (U64.add (link_tx e v) (link_rx e v))
                  = t + (link_tx e v + link_rx e v)).
    { unfold U64.add. rewrite (wrap_small (link_tx e v + link_rx e v))
        by (unfold U64.in_range; lia).
      apply wrap_small. unfold U64.in_range. lia. }
    destruct (IH _ Hloop) as [-> ->]; simpl; rewrite ?Hsum1, ?Ht1; try lia.
    exact Hpm1.
Qed.
End aggregate_facts.

(** ** Conservation of bytes *)

Lemma aggregate_total (e : env) (peers : gmap string json) :
  range_peers_sound e →
  map_Forall (λ _ v, well_formed_link v = true) peers →
  ∃ st, aggregate e peers = Ok st.
Proof.
  intros Hrange Hwf. unfold aggregate. apply aggregate_loop_total.
  apply Forall_forall. intros [k v] Hin. simpl.
  rewrite (Hrange peers) in Hin. apply elem_of_map_to_list in Hin.
  by apply (Hwf k v).
Qed.

Lemma counters_in_range_empty : counters_in_range ∅.
Proof. apply map_Forall_empty. Qed.

(** C1, as it holds.  For every map of raw link records and every order in
    which [range] visits it: the loop of lines 143-165 ends without a panic
    when the records are well formed, and whenever it ends the bytes (sent
    plus received) summed over the peer summaries, the bytes summed over
    the raw records and [totalbytes] agree modulo [2^64], [totalbytes]
    being the raw sum reduced modulo [2^64]; the three are equal when the
    raw sum is below [2^64]. *)
Theorem aggregate_conserves_bytes (e : env) (peers : gmap string json) :
  range_peers_sound e →
  (map_Forall (λ _ v, well_formed_link v = true) peers →
   ∃ st, aggregate e peers = Ok st) ∧
  ∀ peermap totalbytes,
    aggregate e peers = Ok (peermap, totalbytes) →
    U64.wrap (Zsum summary_bytes (map_to_list peermap)) =
      U64.wrap (Zsum (raw_bytes e) (map_to_list peers)) ∧
    totalbytes = U64.wrap (Zsum (raw_bytes e) (map_to_list peers)) ∧
    (Zsum (raw_bytes e) (map_to_list peers) < U64.modulus →
     Zsum summary_bytes (map_to_list peermap) = Zsum (raw_bytes e) (map_to_list peers) ∧
     totalbytes = Zsum (raw_bytes e) (map_to_list peers)).
Proof.
  intros Hrange. split; [by apply aggregate_total|]. unfold aggregate.
  intros pm t Hagg.
  rewrite <- (Zsum_perm (raw_bytes e) _ _ (Hrange peers)).
  split_and!.
  - destruct (aggregate_loop_cong e _ _ _ Hagg) as (j1 & j2 & H1 & _).
    simpl in H1. rewrite map_to_list_empty in H1. simpl in H1.
    by apply (wrap_eq_of_cong _ _ j1).
  - destruct (aggregate_loop_cong e _ _ _ Hagg) as (j1 & j2 & _ & H2).
    simpl in H2.
    rewrite <- (wrap_small t).
    + by apply (wrap_eq_of_cong _ _ j2).
    + apply (aggregate_loop_total_in_range e _ _ _ Hagg), zero_in_range.
  - intros Hlt.
    destruct (aggregate_loop_exact e _ _ _ Hagg counters_in_range_empty) as [H1 H2];
      simpl; rewrite ?map_to_list_empty; simpl; done.
Qed.

Lemma aggregate_conserves_bytes_witness :
  range_peers_sound (Sample.world "" None) ∧
  aggregate (Sample.world "" None) Sample.three_links = Ok (Sample.three_summaries, 42) ∧
  Zsum summary_bytes (map_to_list Sample.three_summaries) = 42 ∧
  Zsum (raw_bytes (Sample.world "" None)) (map_to_list Sample.three_links) = 42.
Proof.
  assert (Hs : range_peers_sound (Sample.world "" None)) by (intros m; reflexivity).
  assert (Hagg : aggregate (Sample.world "" None) Sample.three_links
                 = Ok (Sample.three_summaries, 42)) by reflexivity.
  destruct (aggregate_conserves_bytes (Sample.world "" None) Sample.three_links Hs)
    as [_ Hcons].
  destruct (Hcons _ _ Hagg) as (_ & _ & Hexact).
  destruct Hexact as [H1 H2]; [reflexivity|].
  split_and!; [exact Hs|exact Hagg| |by symmetry].
  by rewrite H1, <- H2.
Defined.

(** C1 fails once a counter wraps around: two links to one peer that each
    sent [2^63] bytes are summed to a summary with 0 sent bytes and to
    [totalbytes = 0], while the raw records hold [2^64] bytes. *)
Lemma aggregate_loses_bytes_after_wrap :
  range_peers_sound (Sample.world "" None) ∧
  aggregate (Sample.world "" None) Sample.heavy_pair = Ok (Sample.heavy_pair_summaries, 0) ∧
  Zsum (raw_bytes (Sample.world "" None)) (map_to_list Sample.heavy_pair) = 2 ^ 64 ∧
  Zsum summary_bytes (map_to_list Sample.heavy_pair_summaries) = 0 ∧
  Zsum summary_bytes (map_to_list Sample.heavy_pair_summaries)
    ≠ Zsum (raw_bytes (Sample.world "" None)) (map_to_list Sample.heavy_pair) ∧
  Zsum (raw_bytes (Sample.world "" None)) (map_to_list Sample.heavy_pair) ≠ 0.
Proof.
  split_and!; [intros m; reflexivity|reflexivity|by vm_compute|reflexivity| |];
    by vm_compute.
Qed.

(** ** Grouping by peer address *)

Section grouping.
Context (e : env).

(** The summary of an address is the fold of [absorb] over the records
    with that address, in the order of the loop. *)
Lemma aggregate_loop_lookup l st st' a :
  aggregate_loop e l st = Ok st' →
  st'.1 !! a = foldl (λ d kv, Some (absorb e d kv)) (st.1 !! a) (links_of a l).
Proof.
  revert st. induction l as [|[k v] l IH]; intros [pm t]; simpl.
  - by intros [= <-].
  - aggregate_iteration e pm t k v pm1 t1 Hstep.
    intros Hloop. rewrite (IH _ Hloop). simpl.
    apply aggregate_step_inv in Hstep as (ip & Hip & -> & _ & _).
    unfold links_of. rewrite filter_cons. simpl. rewrite Hip.
    destruct (decide (Some ip = Some a)) as [[= ->]|Hne].
    + simpl. by rewrite lookup_insert_eq.
    + rewrite lookup_insert_ne; [done|]. by intros ->.
Qed.

(** The first record met for an address has a coordinate path. *)
Lemma aggregate_loop_first_coords l st st' a kv rest :
  aggregate_loop e l st = Ok st' →
  st.1 !! a = None → links_of a l = kv :: rest → is_Some (link_coords kv.2).
Proof.
  revert st. induction l as [|[k v] l IH]; intros [pm t]; simpl.
  - by intros [= <-].
  - aggregate_iteration e pm t k v pm1 t1 Hstep.
    intros Hloop Hnone.
    apply aggregate_step_inv in Hstep as (ip & Hip & -> & _ & Hc).
    unfold links_of. rewrite filter_cons. simpl. rewrite Hip.
    destruct (decide (Some ip = Some a)) as [[= ->]|Hne].
    + intros [= <- _]. by apply Hc.
    + intros Hrest. apply (IH _ Hloop); [|done].
      simpl. rewrite lookup_insert_ne; [done|]. by intros ->.
Qed.

(** When exactly two records of the map carry an address, [range] meets
    them in one of the two orders. *)
Lemma links_of_two (peers : gmap string json) l k1 k2 v1 v2 a :
  l ≡ₚ map_to_list peers →
  k1 ≠ k2 → peers !! k1 = Some v1 → peers !! k2 = Some v2 →
  link_ip v1 = Some a → link_ip v2 = Some a →
  (∀ k v, peers !! k = Some v → link_ip v = Some a → k = k1 ∨ k = k2) →
  links_of a l = [(k1, v1); (k2, v2)] ∨ links_of a l = [(k2, v2); (k1, v1)].
Proof.
  intros Hl Hne H1 H2 Ha1 Ha2 Honly.
  apply Permutation_length_2_inv. symmetry. apply NoDup_Permutation.
  - apply NoDup_filter. rewrite Hl. apply NoDup_map_to_list.
  - apply NoDup_cons. split; [|apply NoDup_singleton].
    rewrite list_elem_of_singleton. by intros [= ? _].
  - intros [k v]. unfold links_of. rewrite list_elem_of_filter, Hl, elem_of_map_to_list.
    simpl. rewrite elem_of_cons, list_elem_of_singleton. split.
    + intros [Hip Hkv]. destruct (Honly k v Hkv Hip) as [-> | ->]; [left|right]; congruence.
    + intros [[= -> ->]|[= -> ->]]; by split.
Qed.
End grouping.

(** C4, as it holds.  Two raw link records with the same peer address.
    When the records under the link ids [k1] and [k2] are the two records
    of the map that carry the address [a], the aggregation (which ends
    without a panic on well-formed records) leaves one summary under [a]:
    its link ids are the two ids in the order in which [range] met them,
    its counters are the sums of the two records' counters modulo [2^64]
    (lines 149-150 add uint64 values), the plain sums when these are below
    [2^64], and its coordinate path is the one of the record met first. *)
Theorem two_links_one_summary (e : env) (peers : gmap string json)
    (k1 k2 : string) (v1 v2 : json) (a : string) :
  range_peers_sound e →
  k1 ≠ k2 → peers !! k1 = Some v1 → peers !! k2 = Some v2 →
  link_ip v1 = Some a → link_ip v2 = Some a →
  (∀ k v, peers !! k = Some v → link_ip v = Some a → k = k1 ∨ k = k2) →
  (map_Forall (λ _ v, well_formed_link v = true) peers →
   ∃ st, aggregate e peers = Ok st) ∧
  ∀ peermap totalbytes,
    aggregate e peers = Ok (peermap, totalbytes) →
    ∃ d first second,
      links_of a (range_peers e peers) = [first; second] ∧
      (first.1 = k1 ∧ second.1 = k2 ∨ first.1 = k2 ∧ second.1 = k1) ∧
      peermap !! a = Some d ∧
      ports d = [first.1; second.1] ∧
      txbytes d = U64.add (link_tx e v1) (link_tx e v2) ∧
      rxbytes d = U64.add (link_rx e v1) (link_rx e v2) ∧
      (link_tx e v1 + link_tx e v2 < U64.modulus →
       txbytes d = link_tx e v1 + link_tx e v2) ∧
      (link_rx e v1 + link_rx e v2 < U64.modulus →
       rxbytes d = link_rx e v1 + link_rx e v2) ∧
      link_coords first.2 = Some (coords d).
Proof.
  intros Hrange Hne H1 H2 Ha1 Ha2 Honly. split; [by apply aggregate_total|].
  intros pm t Hagg. unfold aggregate in Hagg.
  pose proof (aggregate_loop_lookup e _ _ _ a Hagg) as Hlook.
  simpl in Hlook. rewrite lookup_empty in Hlook.
  destruct (links_of_two peers _ k1 k2 v1 v2 a (Hrange peers) Hne H1 H2 Ha1 Ha2 Honly)
    as [Hhits|Hhits].
  - destruct (aggregate_loop_first_coords e _ _ _ a _ _ Hagg (lookup_empty _) Hhits)
      as [c Hc].
    rewrite Hhits in Hlook. simpl in Hlook, Hc.
    eexists _, (k1, v1), (k2, v2).
    split_and!; [done|by left|exact Hlook|done..| | | ]; simpl.
    + intros Hlt. apply wrap_small. pose proof (link_tx_range e v1) as [? _].
      pose proof (link_tx_range e v2) as [? _]. unfold U64.in_range. lia.
    + intros Hlt. apply wrap_small. pose proof (link_rx_range e v1) as [? _].
      pose proof (link_rx_range e v2) as [? _]. unfold U64.in_range. lia.
    + by rewrite Hc.
  - destruct (aggregate_loop_first_coords e _ _ _ a _ _ Hagg (lookup_empty _) Hhits)
      as [c Hc].
    rewrite Hhits in Hlook. simpl in Hlook, Hc.
    eexists _, (k2, v2), (k1, v1).
    split_and!; [done|by right|exact Hlook|done| | | | | ]; simpl.
    + unfold U64.add. f_equal. lia.
    + unfold U64.add. f_equal. lia.
    + intros Hlt. unfold U64.add. rewrite Z.add_comm. apply wrap_small.
      pose proof (link_tx_range e v1) as [? _].
      pose proof (link_tx_range e v2) as [? _]. unfold U64.in_range. lia.
    + intros Hlt. unfold U64.add. rewrite Z.add_comm. apply wrap_small.
      pose proof (link_rx_range e v1) as [? _].
      pose proof (link_rx_range e v2) as [? _]. unfold U64.in_range. lia.
    + by rewrite Hc.
Qed.

Lemma two_links_one_summary_witness :
  range_peers_sound (Sample.world "" None) ∧
  Sample.three_links !! "1" = Some (link_record "200::1" 10 20 "[1]") ∧
  Sample.three_links !! "3" = Some (link_record "200::1" 1 1 "[1 2]") ∧
  aggregate (Sample.world "" None) Sample.three_links = Ok (Sample.three_summaries, 42) ∧
  ∃ d, Sample.three_summaries !! "200::1" = Some d ∧
       ports d = ["3"; "1"] ∧ txbytes d = 11 ∧ rxbytes d = 21 ∧ coords d = "[1 2]".
Proof.
  assert (Hs : range_peers_sound (Sample.world "" None)) by (intros m; reflexivity).
  assert (Hagg : aggregate (Sample.world "" None) Sample.three_links
                 = Ok (Sample.three_summaries, 42)) by reflexivity.
  split_and!; [exact Hs|reflexivity..|exact Hagg|].
  destruct (two_links_one_summary (Sample.world "" None) Sample.three_links
              "1" "3" (link_record "200::1" 10 20 "[1]")
              (link_record "200::1" 1 1 "[1 2]") "200::1" Hs)
    as [_ Hsum]; [done|reflexivity..| |].
  - unfold Sample.three_links. intros k v Hk Hip.
    rewrite !lookup_insert in Hk. repeat case_decide; subst; auto.
    + injection Hk as <-. discriminate Hip.
    + rewrite lookup_empty in Hk. discriminate.
  - destruct (Hsum _ _ Hagg) as (d & x & y & Hhits & _ & Hd & Hp & Htx & Hrx & _ & _ & Hc).
    exists d. split_and!; [exact Hd|..].
    + rewrite Hp. by injection Hhits as <- <-.
    + rewrite Htx. reflexivity.
    + rewrite Hrx. reflexivity.
    + injection Hhits as <- <-. by injection Hc as <-.
Defined.

(** C4 fails once a counter wraps around: the two links of
    [Sample.heavy_pair] lead to the same address and sent [2^63] bytes
    each; the one summary has both link ids, but its sent counter is 0
    and not the sum [2^64] of the two records' counters. *)
Lemma two_links_sum_wraps :
  let e := Sample.world "" None in
  let v := link_record "200::1" (2 ^ 63) 0 "[1]" in
  range_peers_sound e ∧
  Sample.heavy_pair !! "1" = Some v ∧
  Sample.heavy_pair !! "2" = Some v ∧
  link_ip v = Some "200::1" ∧
  (∀ k v', Sample.heavy_pair !! k = Some v' → k = "1" ∨ k = "2") ∧
  aggregate e Sample.heavy_pair = Ok (Sample.heavy_pair_summaries, 0) ∧
  ∃ d, Sample.heavy_pair_summaries !! "200::1" = Some d ∧
       ports d = ["1"; "2"] ∧
       txbytes d = 0 ∧
       link_tx e v + link_tx e v = 2 ^ 64 ∧
       txbytes d ≠ link_tx e v + link_tx e v.
Proof.
  intros e v. split_and!; [intros m; reflexivity|reflexivity..| |reflexivity|].
  - intros k v' Hk. unfold Sample.heavy_pair in Hk.
    rewrite !lookup_insert in Hk. repeat case_decide; subst; auto.
    rewrite lookup_empty in Hk. discriminate.
  - eexists. split; [reflexivity|]. split_and!; [reflexivity..| |]; by vm_compute.
Qed.

(** ** The rendering loop *)

Section render_facts.
Context (e : env).

(** One iteration, read off the code. *)
Lemma render_step_inv total st ip peer st' :
  render_step e total st (ip, peer) = Ok st' →
  ∃ ports_s,
    ports_text peer = Ok ports_s ∧
    str st' = str st +:+ node_html e total st ip peer ports_s ∧
    count st' = count st + 1 ∧
    offset st' = U64.add (offset st) (U64.add (rxbytes peer) (txbytes peer)).
Proof.
  unfold render_step. destruct (ports_text peer) as [ports_s|]; simpl; [|discriminate].
  intros [= <-]. exists ports_s. by split_and!.
Qed.

Lemma ports_text_total peer : ports peer ≠ [] → ∃ ports_s, ports_text peer = Ok ports_s.
Proof.
  unfold ports_text. intros Hne. case_match; [eauto|].
  destruct (ports peer); [done|eauto].
Qed.

Lemma render_step_total total st ip peer :
  ports peer ≠ [] → ∃ st', render_step e total st (ip, peer) = Ok st'.
Proof.
  intros [ports_s Hp]%ports_text_total. unfold render_step. rewrite Hp. simpl. eauto.
Qed.

Lemma render_loop_total total l st :
  Forall (λ kd, ports kd.2 ≠ []) l → ∃ st', render_loop e total l st = Ok st'.
Proof.
  intros Hl. revert st. induction Hl as [|[ip peer] l Hp _ IH]; intros st; simpl; [eauto|].
  destruct (render_step_total total st ip peer Hp) as [st1 ->]. simpl. apply IH.
Qed.

(** The loop over [l1 ++ l2] is the loop over [l1] followed by the loop
    over [l2]. *)
Lemma render_loop_app total l1 l2 st :
  render_loop e total (l1 ++ l2) st =
  st1 ← render_loop e total l1 st; render_loop e total l2 st1.
Proof.
  revert st. induction l1 as [|kd l1 IH]; intros st; simpl; [done|].
  destruct (render_step e total st kd); simpl; [apply IH|done].
Qed.

(** [offset] is the uint64 sum of the bytes of the peers rendered so far,
    and [count] is their number. *)
Lemma render_loop_offset total l st st' :
  render_loop e total l st = Ok st' →
  U64.wrap (offset st') = U64.wrap (offset st + Zsum summary_bytes l) ∧
  (U64.in_range (offset st) → U64.in_range (offset st')) ∧
  count st' = count st + Z.of_nat (length l).
Proof.
  revert st. induction l as [|[ip peer] l IH]; intros st.
  - simpl. intros [= <-]. split_and!; [f_equal|done|]; lia.
  - cbn [render_loop]. rewrite Zsum_cons.
    destruct (render_step e total st (ip, peer)) as [st1|] eqn:Hstep; simpl; [|discriminate].
    intros Hloop. destruct (IH _ Hloop) as (Hoff & Hin & Hcount).
    apply render_step_inv in Hstep as (_ & _ & _ & Hc1 & Ho1).
    rewrite Hoff, Hcount, Hc1, Ho1. split_and!; [| |lia].
    + unfold U64.add, summary_bytes. simpl.
      destruct (wrap_cong (rxbytes peer + txbytes peer)) as [j1 ->].
      destruct (wrap_cong (offset st + (rxbytes peer + txbytes peer + j1 * U64.modulus)))
        as [j2 ->].
      apply (wrap_eq_of_cong _ _ (j1 + j2)). lia.
    + intros _. apply Hin. rewrite Ho1. apply wrap_range.
Qed.

(** The state in which the peer at position [i] is rendered. *)
Lemma render_loop_at total l st_end i ip peer :
  render_loop e total l render_init = Ok st_end →
  l !! i = Some (ip, peer) →
  ∃ st st',
    render_loop e total (take i l) render_init = Ok st ∧
    render_step e total st (ip, peer) = Ok st' ∧
    render_loop e total (take (S i) l) render_init = Ok st' ∧
    offset st = U64.wrap (Zsum summary_bytes (take i l)) ∧
    count st = Z.of_nat i.
Proof.
  intros Hloop Hi.
  pose proof (take_drop_middle l i (ip, peer) Hi) as Hsplit.
  rewrite <- Hsplit, render_loop_app in Hloop.
  destruct (render_loop e total (take i l) render_init) as [st|] eqn:Hpre;
    simpl in Hloop; [|discriminate].
  destruct (render_step e total st (ip, peer)) as [st'|] eqn:Hstep;
    simpl in Hloop; [|discriminate].
  exists st, st'. split_and!; [done..| | | ].
  - rewrite (take_S_r l i (ip, peer) Hi), render_loop_app, Hpre. simpl.
    by rewrite Hstep.
  - destruct (render_loop_offset _ _ _ _ Hpre) as (Hoff & Hin & _).
    change (offset render_init + Zsum summary_bytes (take i l))
      with (Zsum summary_bytes (take i l)) in Hoff.
    rewrite <- Hoff. symmetry. apply wrap_small, Hin, zero_in_range.
  - destruct (render_loop_offset _ _ _ _ Hpre) as (_ & _ & Hc). rewrite Hc. simpl.
    rewrite length_take. apply lookup_lt_Some in Hi. lia.
Qed.

(** The three uint64 subtractions of line 183 are one subtraction modulo
    [2^64]; the two additions of line 190 are one addition. *)
Lemma sub_sub_sub total off tx rx :
  U64.sub (U64.sub (U64.sub total off) tx) rx = U64.wrap (total - off - tx - rx).
Proof.
  unfold U64.sub, U64.wrap. rewrite Zminus_mod_idemp_l.
  replace ((total - off) `mod` U64.modulus - tx - rx)
    with ((total - off) `mod` U64.modulus - (tx + rx)) by lia.
  rewrite Zminus_mod_idemp_l. f_equal. lia.
Qed.

Lemma add_add off rx tx :
  U64.add off (U64.add rx tx) = U64.wrap (off + (tx + rx)).
Proof.
  unfold U64.add, U64.wrap. rewrite Zplus_mod_idemp_r. f_equal. lia.
Qed.

(** The text that one iteration appends, spelled out. *)
Lemma node_html_text total st ip peer ports_s :
  node_html e total st ip peer ports_s =
  "<div class='node'>" +:+ nl +:+
  "<div class='ct-chart ct-perfect-fourth' id='ct-" +:+ pretty (count st) +:+ "'></div>" +:+ nl +:+
  "<script>" +:+ nl +:+
  "new Chartist.Pie('#ct-" +:+ pretty (count st) +:+ "', { series: [" +:+
    pretty (offset st) +:+ ", " +:+ pretty (txbytes peer) +:+ ", " +:+
    pretty (rxbytes peer) +:+ ", " +:+
    pretty (U64.wrap (total - offset st - txbytes peer - rxbytes peer)) +:+
    "] }, { donut: true, donutWidth: 25, donutSolid: true, startbytes: 0, showLabel: false });" +:+ nl +:+
  "</script>" +:+ nl +:+
  "<div id='ipv6'>" +:+ ip +:+ "</div>" +:+ nl +:+
  "<div>" +:+ shown_coords peer +:+ " attached to " +:+ ports_s +:+ "</div>" +:+ nl +:+
  "<div>" +:+ humanize_Bytes e (txbytes peer) +:+ " sent</div>" +:+ nl +:+
  "<div>" +:+ humanize_Bytes e (rxbytes peer) +:+ " received</div>" +:+ nl +:+
  "</div>" +:+ nl.
Proof.
  unfold node_html, series_text, chart_series. rewrite sub_sub_sub.
  cbn [fmap list_fmap String.concat]. by rewrite !append_assoc.
Qed.

(** The builder only grows. *)
Lemma render_loop_grows total l st st' :
  render_loop e total l st = Ok st' → ∃ rest, str st' = str st +:+ rest.
Proof.
  revert st. induction l as [|[ip peer] l IH]; intros st.
  - simpl. intros [= <-]. exists "". by rewrite append_nil_r.
  - cbn [render_loop].
    destruct (render_step e total st (ip, peer)) as [st1|] eqn:Hstep; simpl; [|discriminate].
    intros [rest Hrest]%IH.
    apply render_step_inv in Hstep as (ports_s & _ & Hstr & _ & _).
    exists (node_html e total st ip peer ports_s +:+ rest).
    by rewrite Hrest, Hstr, append_assoc.
Qed.

(** The block of the peer at position [i], and where it stands in the
    rendered text. *)
Lemma render_loop_block total l i ip peer :
  Forall (λ kd, ports kd.2 ≠ []) l → l !! i = Some (ip, peer) →
  ∃ st st' st_end ports_s rest,
    render_loop e total (take i l) render_init = Ok st ∧
    render_loop e total (take (S i) l) render_init = Ok st' ∧
    render_loop e total l render_init = Ok st_end ∧
    offset st = U64.wrap (Zsum summary_bytes (take i l)) ∧
    ports_text peer = Ok ports_s ∧
    str st' = str st +:+
      "<div class='node'>" +:+ nl +:+
      "<div class='ct-chart ct-perfect-fourth' id='ct-" +:+ pretty (Z.of_nat i) +:+ "'></div>" +:+ nl +:+
      "<script>" +:+ nl +:+
      "new Chartist.Pie('#ct-" +:+ pretty (Z.of_nat i) +:+ "', { series: [" +:+
        pretty (offset st) +:+ ", " +:+ pretty (txbytes peer) +:+ ", " +:+
        pretty (rxbytes peer) +:+ ", " +:+
        pretty (U64.wrap (total - offset st - txbytes peer - rxbytes peer)) +:+
        "] }, { donut: true, donutWidth: 25, donutSolid: true, startbytes: 0, showLabel: false });" +:+ nl +:+
      "</script>" +:+ nl +:+
      "<div id='ipv6'>" +:+ ip +:+ "</div>" +:+ nl +:+
      "<div>" +:+ shown_coords peer +:+ " attached to " +:+ ports_s +:+ "</div>" +:+ nl +:+
      "<div>" +:+ humanize_Bytes e (txbytes peer) +:+ " sent</div>" +:+ nl +:+
      "<div>" +:+ humanize_Bytes e (rxbytes peer) +:+ " received</div>" +:+ nl +:+
      "</div>" +:+ nl ∧
    str st_end = str st' +:+ rest ∧
    offset st' = U64.wrap (offset st + (txbytes peer + rxbytes peer)).
Proof.
  intros Hports Hi.
  destruct (render_loop_total total l render_init Hports) as [st_end Hend].
  destruct (render_loop_at total l st_end i ip peer Hend Hi)
    as (st & st' & Hpre & Hstep & Hnext & Hoff & Hcount).
  apply render_step_inv in Hstep as (ports_s & Hp & Hstr & _ & Ho).
  assert (Hrest : ∃ rest, str st_end = str st' +:+ rest).
  { pose proof (take_drop (S i) l) as Hsplit.
    rewrite <- Hsplit, render_loop_app, Hnext in Hend. simpl in Hend.
    by apply render_loop_grows in Hend. }
  destruct Hrest as [rest Hrest].
  exists st, st', st_end, ports_s, rest.
  split_and!; [done..| |done|].
  - by rewrite Hstr, node_html_text, Hcount.
  - by rewrite Ho, add_add.
Qed.
End render_facts.

(** The remainder as an integer, when the subtraction does not wrap. *)
Lemma remainder_exact total off tx rx :
  U64.in_range total → 0 ≤ off → 0 ≤ tx → 0 ≤ rx → off + tx + rx ≤ total →
  U64.sub (U64.sub (U64.sub total off) tx) rx = total - off - tx - rx.
Proof.
  intros [? ?] ? ? ? ?. unfold U64.sub.
  rewrite (wrap_small (total - off)) by (unfold U64.in_range; lia).
  rewrite (wrap_small (total - off - tx)) by (unfold U64.in_range; lia).
  apply wrap_small. unfold U64.in_range. lia.
Qed.

(** C5, as it holds.  The remainder series.  For every list of peers
    rendered in order (each with at least one port, as [peer.ports[0]]
    needs), the block of the peer at position [i] is appended to what was
    rendered before it and carries the chart directive with the four
    series values: [offset], which is the sum of the sent and received
    bytes of the peers before it modulo [2^64]; the peer's sent and
    received bytes; and [totalbytes - offset - txbytes - rxbytes] modulo
    [2^64], which is the plain difference when [offset + txbytes + rxbytes]
    does not exceed a [totalbytes] below [2^64].  Afterwards [offset] has
    grown by the peer's bytes, modulo [2^64].  In particular, for three
    peers with (sent, received) = (10,20), (5,5), (1,1) the rendered text
    holds the series [30, 5, 5, totalbytes - 30 - 5 - 5] for the second and
    [40, 1, 1, totalbytes - 40 - 1 - 1] for the third, the differences
    taken modulo [2^64] and plain when [42 ≤ totalbytes < 2^64]. *)
Theorem remainder_series (e : env) (totalbytes : Z) :
  (∀ l i ip peer,
     Forall (λ kd, ports kd.2 ≠ []) l → l !! i = Some (ip, peer) →
     ∃ st st' st_end tail rest,
       render_loop e totalbytes (take i l) render_init = Ok st ∧
       render_loop e totalbytes (take (S i) l) render_init = Ok st' ∧
       render_loop e totalbytes l render_init = Ok st_end ∧
       offset st = U64.wrap (Zsum summary_bytes (take i l)) ∧
       str st' = str st +:+
         "<div class='node'>" +:+ nl +:+
         "<div class='ct-chart ct-perfect-fourth' id='ct-" +:+ pretty (Z.of_nat i) +:+
           "'></div>" +:+ nl +:+
         "<script>" +:+ nl +:+
         "new Chartist.Pie('#ct-" +:+ pretty (Z.of_nat i) +:+ "', { series: [" +:+
           pretty (offset st) +:+ ", " +:+ pretty (txbytes peer) +:+ ", " +:+
           pretty (rxbytes peer) +:+ ", " +:+
           pretty (U64.wrap (totalbytes - offset st - txbytes peer - rxbytes peer)) +:+
           "] }, { donut: true, donutWidth: 25, donutSolid: true, startbytes: 0, showLabel: false });" +:+ nl +:+
         "</script>" +:+ nl +:+
         "<div id='ipv6'>" +:+ ip +:+ "</div>" +:+ nl +:+ tail ∧
       str st_end = str st' +:+ rest ∧
       offset st' = U64.wrap (offset st + (txbytes peer + rxbytes peer)) ∧
       (0 ≤ Zsum summary_bytes (take i l) < U64.modulus →
        offset st = Zsum summary_bytes (take i l)) ∧
       (0 ≤ txbytes peer → 0 ≤ rxbytes peer →
        offset st + txbytes peer + rxbytes peer ≤ totalbytes < U64.modulus →
        U64.wrap (totalbytes - offset st - txbytes peer - rxbytes peer) =
        totalbytes - offset st - txbytes peer - rxbytes peer)) ∧
  (∀ ip1 ip2 ip3 x1 x2 x3 ps1 ps2 ps3 c1 c2 c3,
     let P1 := {| ports := x1 :: ps1; txbytes := 10; rxbytes := 20; coords := c1 |} in
     let P2 := {| ports := x2 :: ps2; txbytes := 5; rxbytes := 5; coords := c2 |} in
     let P3 := {| ports := x3 :: ps3; txbytes := 1; rxbytes := 1; coords := c3 |} in
     let l := [(ip1, P1); (ip2, P2); (ip3, P3)] in
     ∃ st_end pre2 post2 pre3 post3,
       render_loop e totalbytes l render_init = Ok st_end ∧
       str st_end = pre2 +:+
         "new Chartist.Pie('#ct-1', { series: [30, 5, 5, " +:+
           pretty (U64.wrap (totalbytes - 30 - 5 - 5)) +:+
           "] }, { donut: true, donutWidth: 25, donutSolid: true, startbytes: 0, showLabel: false });" +:+ nl +:+
         "</script>" +:+ nl +:+
         "<div id='ipv6'>" +:+ ip2 +:+ "</div>" +:+ nl +:+ post2 ∧
       str st_end = pre3 +:+
         "new Chartist.Pie('#ct-2', { series: [40, 1, 1, " +:+
           pretty (U64.wrap (totalbytes - 40 - 1 - 1)) +:+
           "] }, { donut: true, donutWidth: 25, donutSolid: true, startbytes: 0, showLabel: false });" +:+ nl +:+
         "</script>" +:+ nl +:+
         "<div id='ipv6'>" +:+ ip3 +:+ "</div>" +:+ nl +:+ post3 ∧
       (42 ≤ totalbytes < U64.modulus →
        U64.wrap (totalbytes - 30 - 5 - 5) = totalbytes - 30 - 5 - 5 ∧
        U64.wrap (totalbytes - 40 - 1 - 1) = totalbytes - 40 - 1 - 1)).
Proof.
  assert (Hgen : ∀ l i ip peer,
     Forall (λ kd, ports kd.2 ≠ []) l → l !! i = Some (ip, peer) →
     ∃ st st' st_end tail rest,
       render_loop e totalbytes (take i l) render_init = Ok st ∧
       render_loop e totalbytes (take (S i) l) render_init = Ok st' ∧
       render_loop e totalbytes l render_init = Ok st_end ∧
       offset st = U64.wrap (Zsum summary_bytes (take i l)) ∧
       str st' = str st +:+
         "<div class='node'>" +:+ nl +:+
         "<div class='ct-chart ct-perfect-fourth' id='ct-" +:+ pretty (Z.of_nat i) +:+
           "'></div>" +:+ nl +:+
         "<script>" +:+ nl +:+
         "new Chartist.Pie('#ct-" +:+ pretty (Z.of_nat i) +:+ "', { series: [" +:+
           pretty (offset st) +:+ ", " +:+ pretty (txbytes peer) +:+ ", " +:+
           pretty (rxbytes peer) +:+ ", " +:+
           pretty (U64.wrap (totalbytes - offset st - txbytes peer - rxbytes peer)) +:+
           "] }, { donut: true, donutWidth: 25, donutSolid: true, startbytes: 0, showLabel: false });" +:+ nl +:+
         "</script>" +:+ nl +:+
         "<div id='ipv6'>" +:+ ip +:+ "</div>" +:+ nl +:+ tail ∧
       str st_end = str st' +:+ rest ∧
       offset st' = U64.wrap (offset st + (txbytes peer + rxbytes peer)) ∧
       (0 ≤ Zsum summary_bytes (take i l) < U64.modulus →
        offset st = Zsum summary_bytes (take i l)) ∧
       (0 ≤ txbytes peer → 0 ≤ rxbytes peer →
        offset st + txbytes peer + rxbytes peer ≤ totalbytes < U64.modulus →
        U64.wrap (totalbytes - offset st - txbytes peer - rxbytes peer) =
        totalbytes - offset st - txbytes peer - rxbytes peer)).
  { intros l i ip peer Hports Hi.
    destruct (render_loop_block e totalbytes l i ip peer Hports Hi)
      as (st & st' & st_end & ports_s & rest & Hpre & Hnext & Hend & Hoff & _ & Hstr & Hrest & Ho).
    eexists st, st', st_end, _, rest.
    split_and!; [done..|exact Hstr|done|done| |].
    - intros Hsmall. rewrite Hoff. by apply wrap_small.
    - intros Htx Hrx [Hle Hlt]. apply wrap_small.
      pose proof (wrap_range (Zsum summary_bytes (take i l))) as [Hlo _].
      rewrite <- Hoff in Hlo. unfold U64.in_range. lia. }
  split; [exact Hgen|].
  intros ip1 ip2 ip3 x1 x2 x3 ps1 ps2 ps3 c1 c2 c3 P1 P2 P3 l.
  assert (Hports : Forall (λ kd, ports kd.2 ≠ []) l) by (by repeat constructor).
  destruct (Hgen l 1%nat ip2 P2 Hports eq_refl)
    as (st2 & st2' & st_end & tail2 & rest2 & _ & _ & Hend & Ho2 & Hstr2 & Hrest2 & _).
  destruct (Hgen l 2%nat ip3 P3 Hports eq_refl)
    as (st3 & st3' & st_end' & tail3 & rest3 & _ & _ & Hend' & Ho3 & Hstr3 & Hrest3 & _).
  rewrite Hend in Hend'. injection Hend' as <-.
  assert (offset st2 = 30) as Hoff2 by (rewrite Ho2; reflexivity).
  assert (offset st3 = 40) as Hoff3 by (rewrite Ho3; reflexivity).
  rewrite Hoff2 in Hstr2. rewrite Hoff3 in Hstr3.
  exists st_end,
    (str st2 +:+ "<div class='node'>" +:+ nl +:+
     "<div class='ct-chart ct-perfect-fourth' id='ct-1'></div>" +:+ nl +:+
     "<script>" +:+ nl),
    (tail2 +:+ rest2),
    (str st3 +:+ "<div class='node'>" +:+ nl +:+
     "<div class='ct-chart ct-perfect-fourth' id='ct-2'></div>" +:+ nl +:+
     "<script>" +:+ nl),
    (tail3 +:+ rest3).
  split_and!; [done| | |].
  - rewrite Hrest2, Hstr2, !append_assoc. reflexivity.
  - rewrite Hrest3, Hstr3, !append_assoc. reflexivity.
  - intros [Hlo Hhi]. split; apply wrap_small; unfold U64.in_range; lia.
Qed.

Lemma remainder_series_witness :
  ∃ st_end pre2 post2,
    render_loop (Sample.world "" None) 100
      [("200::1", {| ports := ["1"]; txbytes := 10; rxbytes := 20; coords := "[1]" |});
       ("200::2", {| ports := ["2"]; txbytes := 5; rxbytes := 5; coords := "[]" |});
       ("200::3", {| ports := ["3"]; txbytes := 1; rxbytes := 1; coords := "[2]" |})]
      render_init = Ok st_end ∧
    str st_end = pre2 +:+
      "new Chartist.Pie('#ct-1', { series: [30, 5, 5, 60" +:+
        "] }, { donut: true, donutWidth: 25, donutSolid: true, startbytes: 0, showLabel: false });" +:+ nl +:+
      "</script>" +:+ nl +:+
      "<div id='ipv6'>200::2</div>" +:+ nl +:+ post2.
Proof.
  destruct (remainder_series (Sample.world "" None) 100) as [_ Hex].
  destruct (Hex "200::1" "200::2" "200::3" "1" "2" "3" [] [] [] "[1]" "[]" "[2]")
    as (st_end & pre2 & post2 & _ & _ & Hend & H2 & _ & Hexact).
  exists st_end, pre2, post2. split; [exact Hend|].
  destruct Hexact as [Hw _]; [by vm_compute|].
  rewrite Hw in H2. exact H2.
Defined.

(** C5 fails once the aggregation wraps around: two peers that each sent
    [2^63] bytes give [totalbytes = 0]; the peer rendered first has no
    peer before it, so the claimed remainder is
    [totalbytes - 0 - 2^63 - 0 = -2^63], but the rendered text holds the
    series value [2^63]. *)
Lemma remainder_differs_after_wrap :
  let e := Sample.world "" None in
  let first := {| ports := ["1"]; txbytes := 2 ^ 63; rxbytes := 0; coords := "[1]" |} in
  range_peers_sound e ∧
  range_peermap_sound e ∧
  aggregate e Sample.heavy_links = Ok (Sample.heavy_summaries, 0) ∧
  range_peermap e Sample.heavy_summaries !! 0%nat = Some ("200::1", first) ∧
  Zsum summary_bytes (take 0 (range_peermap e Sample.heavy_summaries)) = 0 ∧
  0 - 0 - txbytes first - rxbytes first = - 2 ^ 63 ∧
  ∃ out,
    render e Sample.heavy_summaries 0 = Ok out ∧
    contains
      "new Chartist.Pie('#ct-0', { series: [0, 9223372036854775808, 0, 9223372036854775808] }"
      out = true ∧
    contains
      "new Chartist.Pie('#ct-0', { series: [0, 9223372036854775808, 0, -9223372036854775808] }"
      out = false ∧
    pretty (2 ^ 63) = "9223372036854775808" ∧
    pretty (- 2 ^ 63) = "-9223372036854775808".
Proof.
  intros e first.
  split_and!; [intros m; reflexivity..|reflexivity|reflexivity|reflexivity|by vm_compute|].
  eexists. split; [by vm_compute|]. split_and!; by vm_compute.
Qed.

(** ** Port lists and the empty peer map *)

(** The two lines that name a peer and its ports, in the rendered text. *)
Lemma render_peer_lines (e : env) (peermap : gmap string switchPortData)
    (totalbytes : Z) (ip : string) (d : switchPortData) :
  range_peermap_sound e → ports_nonempty peermap → peermap !! ip = Some d →
  ∃ out pre post ports_s,
    render e peermap totalbytes = Ok out ∧
    ports_text d = Ok ports_s ∧
    out = pre +:+
      "<div id='ipv6'>" +:+ ip +:+ "</div>" +:+ nl +:+
      "<div>" +:+ shown_coords d +:+ " attached to " +:+ ports_s +:+ "</div>" +:+ nl +:+
      post.
Proof.
  intros Hrange Hports Hd.
  assert (Hin : (ip, d) ∈ range_peermap e peermap).
  { rewrite (Hrange peermap). by apply elem_of_map_to_list. }
  apply list_elem_of_lookup in Hin as [i Hi].
  assert (Hall : Forall (λ kd, ports kd.2 ≠ []) (range_peermap e peermap)).
  { apply Forall_forall. intros [ip' d'] Hin'. rewrite (Hrange peermap) in Hin'.
    apply elem_of_map_to_list in Hin'. by apply (Hports ip' d'). }
  destruct (render_loop_block e totalbytes _ i ip d Hall Hi)
    as (st & st' & st_end & ports_s & rest & _ & _ & Hend & _ & Hp & Hstr & Hrest & _).
  assert (Hsize : (size peermap =? 0)%nat = false).
  { apply Nat.eqb_neq. intros Hz. apply map_size_empty_iff in Hz.
    rewrite Hz, lookup_empty in Hd. discriminate. }
  exists (str st_end),
    (str st +:+ "<div class='node'>" +:+ nl +:+
     "<div class='ct-chart ct-perfect-fourth' id='ct-" +:+ pretty (Z.of_nat i) +:+
       "'></div>" +:+ nl +:+
     "<script>" +:+ nl +:+
     "new Chartist.Pie('#ct-" +:+ pretty (Z.of_nat i) +:+ "', { series: [" +:+
       pretty (offset st) +:+ ", " +:+ pretty (txbytes d) +:+ ", " +:+
       pretty (rxbytes d) +:+ ", " +:+
       pretty (U64.wrap (totalbytes - offset st - txbytes d - rxbytes d)) +:+
       "] }, { donut: true, donutWidth: 25, donutSolid: true, startbytes: 0, showLabel: false });" +:+ nl +:+
     "</script>" +:+ nl),
    ("<div>" +:+ humanize_Bytes e (txbytes d) +:+ " sent</div>" +:+ nl +:+
     "<div>" +:+ humanize_Bytes e (rxbytes d) +:+ " received</div>" +:+ nl +:+
     "</div>" +:+ nl +:+ rest),
    ports_s.
  split_and!; [|done|].
  - unfold render. rewrite Hend. simpl. by rewrite Hsize.
  - rewrite Hrest, Hstr, !append_assoc. reflexivity.
Qed.

(** C8. In the rendered text, the line after a peer's address reads
    "switch port X" for a peer with the one link X and "switch ports X, Y,
    ..." (the ids joined by ", ") for a peer with several links; and when
    the peer map is empty the renderer emits the "no connected peers"
    notice alone, with no chart block, while a non-empty map gets no
    notice.  An empty map of raw links aggregates to the empty peer map. *)
Theorem ports_text_and_no_peers_notice (e : env) :
  range_peers_sound e → range_peermap_sound e →
  (∀ peermap totalbytes ip d x,
     ports_nonempty peermap → peermap !! ip = Some d → ports d = [x] →
     ∃ out pre post,
       render e peermap totalbytes = Ok out ∧
       out = pre +:+
         "<div id='ipv6'>" +:+ ip +:+ "</div>" +:+ nl +:+
         "<div>" +:+ shown_coords d +:+ " attached to switch port " +:+ x +:+
           "</div>" +:+ nl +:+
         post) ∧
  (∀ peermap totalbytes ip d,
     ports_nonempty peermap → peermap !! ip = Some d → (1 < length (ports d))%nat →
     ∃ out pre post,
       render e peermap totalbytes = Ok out ∧
       out = pre +:+
         "<div id='ipv6'>" +:+ ip +:+ "</div>" +:+ nl +:+
         "<div>" +:+ shown_coords d +:+ " attached to switch ports " +:+
           String.concat ", " (ports d) +:+ "</div>" +:+ nl +:+
         post) ∧
  (∀ peermap totalbytes ip d x y,
     ports_nonempty peermap → peermap !! ip = Some d → ports d = [x; y] →
     ∃ out pre post,
       render e peermap totalbytes = Ok out ∧
       out = pre +:+
         "<div id='ipv6'>" +:+ ip +:+ "</div>" +:+ nl +:+
         "<div>" +:+ shown_coords d +:+ " attached to switch ports " +:+
           x +:+ ", " +:+ y +:+ "</div>" +:+ nl +:+
         post) ∧
  aggregate e ∅ = Ok (∅, 0) ∧
  (∀ totalbytes,
     render e ∅ totalbytes = Ok "<div>There are no connected peers at this time.</div>") ∧
  contains "<div class='node'>" "<div>There are no connected peers at this time.</div>"
    = false ∧
  (∀ peermap totalbytes,
     peermap ≠ ∅ →
     render e peermap totalbytes =
     st ← render_loop e totalbytes (range_peermap e peermap) render_init; Ok (str st)).
Proof.
  intros Hpeers Hrange.
  assert (Hmany : ∀ peermap totalbytes ip d,
     ports_nonempty peermap → peermap !! ip = Some d → (1 < length (ports d))%nat →
     ∃ out pre post,
       render e peermap totalbytes = Ok out ∧
       out = pre +:+
         "<div id='ipv6'>" +:+ ip +:+ "</div>" +:+ nl +:+
         "<div>" +:+ shown_coords d +:+ " attached to switch ports " +:+
           String.concat ", " (ports d) +:+ "</div>" +:+ nl +:+
         post).
  { intros pm total ip d Hports Hd Hlen.
    destruct (render_peer_lines e pm total ip d Hrange Hports Hd)
      as (out & pre & post & ports_s & Hout & Hp & Htext).
    exists out, pre, post. split; [done|].
    unfold ports_text in Hp. apply Nat.ltb_lt in Hlen. rewrite Hlen in Hp.
    injection Hp as <-. rewrite Htext, !append_assoc. reflexivity. }
  split_and!.
  - intros pm total ip d x Hports Hd Hx.
    destruct (render_peer_lines e pm total ip d Hrange Hports Hd)
      as (out & pre & post & ports_s & Hout & Hp & Htext).
    exists out, pre, post. split; [done|].
    unfold ports_text in Hp. rewrite Hx in Hp. simpl in Hp.
    injection Hp as <-. rewrite Htext, !append_assoc. reflexivity.
  - exact Hmany.
  - intros pm total ip d x y Hports Hd Hxy.
    destruct (Hmany pm total ip d Hports Hd) as (out & pre & post & Hout & Htext).
    { rewrite Hxy. simpl. lia. }
    exists out, pre, post. split; [done|].
    rewrite Htext, Hxy. cbn [String.concat]. rewrite !append_assoc. reflexivity.
  - unfold aggregate.
    pose proof (Hpeers ∅) as Hperm. rewrite map_to_list_empty in Hperm.
    apply Permutation_nil_r in Hperm. by rewrite Hperm.
  - intros total. unfold render.
    pose proof (Hrange ∅) as Hperm. rewrite map_to_list_empty in Hperm.
    apply Permutation_nil_r in Hperm. rewrite Hperm. reflexivity.
  - reflexivity.
  - intros pm total Hne. unfold render.
    destruct (size pm =? 0)%nat eqn:Hsz; [|done].
    apply Nat.eqb_eq, map_size_empty_iff in Hsz. done.
Qed.

Lemma ports_text_and_no_peers_notice_witness :
  range_peers_sound (Sample.world "" None) ∧
  range_peermap_sound (Sample.world "" None) ∧
  ports_nonempty Sample.three_summaries ∧
  (∃ out pre post,
     render (Sample.world "" None) Sample.three_summaries 42 = Ok out ∧
     out = pre +:+ "<div id='ipv6'>200::2</div>" +:+ nl +:+
           "<div>Root attached to switch port 2</div>" +:+ nl +:+ post) ∧
  (∃ out pre post,
     render (Sample.world "" None) Sample.three_summaries 42 = Ok out ∧
     out = pre +:+ "<div id='ipv6'>200::1</div>" +:+ nl +:+
           "<div>[1 2] attached to switch ports 3, 1</div>" +:+ nl +:+ post) ∧
  render (Sample.world "" None) ∅ 0 =
    Ok "<div>There are no connected peers at this time.</div>".
Proof.
  assert (Hp : range_peers_sound (Sample.world "" None)) by (intros m; reflexivity).
  assert (Hs : range_peermap_sound (Sample.world "" None)) by (intros m; reflexivity).
  assert (Hn : ports_nonempty Sample.three_summaries).
  { unfold Sample.three_summaries. apply map_Forall_insert_2; [done|].
    apply map_Forall_insert_2; [done|]. apply map_Forall_empty. }
  destruct (ports_text_and_no_peers_notice (Sample.world "" None) Hp Hs)
    as (Hone & _ & Htwo & _ & Hnone & _).
  split_and!; [exact Hp|exact Hs|exact Hn| | |apply Hnone].
  - apply (Hone Sample.three_summaries 42 "200::2"
             {| ports := ["2"]; txbytes := 5; rxbytes := 5; coords := "[]" |} "2" Hn);
      reflexivity.
  - apply (Htwo Sample.three_summaries 42 "200::1"
             {| ports := ["3"; "1"]; txbytes := 11; rxbytes := 21; coords := "[1 2]" |}
             "3" "1" Hn); reflexivity.
Defined.

(** ** The four series values and [totalbytes] *)

(** Every summary made by the aggregation has a link id. *)
Lemma aggregate_loop_ports (e : env) l st st' :
  aggregate_loop e l st = Ok st' → ports_nonempty st.1 → ports_nonempty st'.1.
Proof.
  revert st. induction l as [|[k v] l IH]; intros [pm t]; simpl.
  - by intros [= <-].
  - aggregate_iteration e pm t k v pm1 t1 Hstep.
    intros Hloop Hpm. apply (IH _ Hloop). simpl.
    apply aggregate_step_inv in Hstep as (ip & _ & -> & _ & _).
    apply map_Forall_insert_2; [|done].
    destruct (pm !! ip) as [d0|]; simpl; [|done].
    intros Happ. by apply app_eq_nil in Happ as [_ ?].
Qed.

(** What the exact case gives to the renderer: the peer map accounts for
    [totalbytes], its counters are uint64 values and every summary has a
    link id. *)
Lemma aggregate_conserves_exact_aux (e : env) (peers : gmap string json)
    (peermap : gmap string switchPortData) (totalbytes : Z) :
  range_peers_sound e →
  aggregate e peers = Ok (peermap, totalbytes) →
  Zsum (raw_bytes e) (map_to_list peers) < U64.modulus →
  Zsum summary_bytes (map_to_list peermap) = Zsum (raw_bytes e) (map_to_list peers) ∧
  totalbytes = Zsum (raw_bytes e) (map_to_list peers) ∧
  counters_in_range peermap ∧ ports_nonempty peermap.
Proof.
  intros Hrange Hagg Hlt. unfold aggregate in Hagg.
  rewrite <- (Zsum_perm (raw_bytes e) _ _ (Hrange peers)) in *.
  destruct (aggregate_loop_exact e _ _ _ Hagg counters_in_range_empty) as [H1 H2];
    simpl; rewrite ?map_to_list_empty; simpl; try done.
  simpl in H1, H2. rewrite map_to_list_empty in H1. simpl in H1.
  split_and!; [done..| |].
  - apply (aggregate_loop_in_range e _ _ _ Hagg), counters_in_range_empty.
  - apply (aggregate_loop_ports e _ _ _ Hagg), map_Forall_empty.
Qed.

(** The peers rendered before position [i] and the peer at [i] account for
    at most the bytes of all peers. *)
Lemma Zsum_prefix_le (l : list (string * switchPortData)) i ip peer :
  (∀ kd, kd ∈ l → 0 ≤ summary_bytes kd) →
  l !! i = Some (ip, peer) →
  0 ≤ Zsum summary_bytes (take i l) ∧
  Zsum summary_bytes (take i l) + summary_bytes (ip, peer) ≤ Zsum summary_bytes l.
Proof.
  intros Hnn Hi.
  pose proof (take_drop_middle l i (ip, peer) Hi) as Hsplit.
  assert (0 ≤ Zsum summary_bytes (take i l)).
  { apply Zsum_nonneg. intros kd Hkd. apply Hnn. rewrite <- Hsplit. set_solver. }
  assert (0 ≤ Zsum summary_bytes (drop (S i) l)).
  { apply Zsum_nonneg. intros kd Hkd. apply Hnn. rewrite <- Hsplit. set_solver. }
  split; [done|].
  assert (Zsum summary_bytes l =
          Zsum summary_bytes (take i l ++ (ip, peer) :: drop (S i) l)) as ->
    by (by rewrite Hsplit).
  rewrite Zsum_app, Zsum_cons. lia.
Qed.

(** C9, as it holds.  When [totalbytes] and the peer map come from the same
    aggregation pass and the bytes of all raw records together stay below
    [2^64], every peer is rendered with four series values (offset, sent,
    received, remainder) whose sum is [totalbytes]; offset plus sent plus
    received does not exceed [totalbytes], so the subtraction of line 183
    does not wrap. *)
Theorem series_sum_to_totalbytes (e : env) (peers : gmap string json)
    (peermap : gmap string switchPortData) (totalbytes : Z) :
  range_peers_sound e → range_peermap_sound e →
  aggregate e peers = Ok (peermap, totalbytes) →
  Zsum (raw_bytes e) (map_to_list peers) < U64.modulus →
  ∀ i ip peer,
    range_peermap e peermap !! i = Some (ip, peer) →
    ∃ st r,
      render_loop e totalbytes (take i (range_peermap e peermap)) render_init = Ok st ∧
      chart_series totalbytes (offset st) peer =
        [offset st; txbytes peer; rxbytes peer; r] ∧
      0 ≤ offset st ∧ 0 ≤ txbytes peer ∧ 0 ≤ rxbytes peer ∧ 0 ≤ r ∧
      offset st + txbytes peer + rxbytes peer ≤ totalbytes ∧
      r = totalbytes - offset st - txbytes peer - rxbytes peer ∧
      offset st + txbytes peer + rxbytes peer + r = totalbytes.
Proof.
  intros Hpeers Hrange Hagg Hlt i ip peer Hi.
  destruct (aggregate_conserves_exact_aux e peers peermap totalbytes Hpeers Hagg Hlt)
    as (Hsum & Htot & Hcnt & Hports).
  set (l := range_peermap e peermap) in *.
  assert (Hl : ∀ kd, kd ∈ l → peermap !! kd.1 = Some kd.2).
  { intros [k d] Hkd. unfold l in Hkd. rewrite (Hrange peermap) in Hkd.
    by apply elem_of_map_to_list in Hkd. }
  assert (Hnn : ∀ kd, kd ∈ l → 0 ≤ summary_bytes kd).
  { intros kd Hkd. destruct (Hcnt _ _ (Hl kd Hkd)) as [[? _] [? _]].
    unfold summary_bytes. lia. }
  assert (Hpl : Forall (λ kd, ports kd.2 ≠ []) l).
  { apply Forall_forall. intros kd Hkd. apply (Hports _ _ (Hl kd Hkd)). }
  destruct (render_loop_total e totalbytes l render_init Hpl) as [st_end Hend].
  destruct (render_loop_at e totalbytes l st_end i ip peer Hend Hi)
    as (st & _ & Hpre & _ & _ & Hoff & _).
  destruct (Zsum_prefix_le l i ip peer Hnn Hi) as [Hpre0 Hle].
  rewrite (Zsum_perm summary_bytes l _ (Hrange peermap)), Hsum in Hle.
  assert (Hpeer : peermap !! ip = Some peer).
  { apply (Hl (ip, peer)). by apply list_elem_of_lookup_2 in Hi. }
  destruct (Hcnt _ _ Hpeer) as [[Htx _] [Hrx _]].
  change (summary_bytes (ip, peer)) with (txbytes peer + rxbytes peer) in Hle.
  rewrite wrap_small in Hoff by (unfold U64.in_range; lia).
  rewrite <- Htot in Hle, Hlt.
  exists st, (totalbytes - offset st - txbytes peer - rxbytes peer).
  rewrite Hoff. split_and!; try lia; [done|].
  unfold chart_series. rewrite remainder_exact; unfold U64.in_range; try lia. done.
Qed.

Lemma series_sum_to_totalbytes_witness :
  range_peers_sound (Sample.world "" None) ∧
  range_peermap_sound (Sample.world "" None) ∧
  aggregate (Sample.world "" None) Sample.three_links = Ok (Sample.three_summaries, 42) ∧
  Zsum (raw_bytes (Sample.world "" None)) (map_to_list Sample.three_links) < U64.modulus ∧
  ∃ ip peer,
    range_peermap (Sample.world "" None) Sample.three_summaries !! 1%nat = Some (ip, peer) ∧
    chart_series 42 32 peer = [32; 5; 5; 0].
Proof.
  assert (Hp : range_peers_sound (Sample.world "" None)) by (intros m; reflexivity).
  assert (Hs : range_peermap_sound (Sample.world "" None)) by (intros m; reflexivity).
  assert (Hagg : aggregate (Sample.world "" None) Sample.three_links
                 = Ok (Sample.three_summaries, 42)) by reflexivity.
  assert (Hlt : Zsum (raw_bytes (Sample.world "" None)) (map_to_list Sample.three_links)
                < U64.modulus) by reflexivity.
  split_and!; [done..|].
  exists "200::2", {| ports := ["2"]; txbytes := 5; rxbytes := 5; coords := "[]" |}.
  assert (Hi : range_peermap (Sample.world "" None) Sample.three_summaries !! 1%nat
               = Some ("200::2",
                       {| ports := ["2"]; txbytes := 5; rxbytes := 5; coords := "[]" |}))
    by reflexivity.
  split; [exact Hi|].
  destruct (series_sum_to_totalbytes (Sample.world "" None) Sample.three_links
              Sample.three_summaries 42 Hp Hs Hagg Hlt 1%nat _ _ Hi)
    as (st & r & Hst & Hseries & _ & _ & _ & _ & _ & Hr & _).
  assert (Hoff : offset st = 32).
  { apply (f_equal (λ r, match r with Ok s => offset s | Panic => 0 end)) in Hst.
    symmetry. exact Hst. }
  rewrite Hoff in Hseries, Hr. rewrite Hseries. simpl in Hr. by rewrite Hr.
Defined.

(** C9 fails once the aggregation wraps around: two peers that each sent
    [2^63] bytes give [totalbytes = 0]; the peer rendered first has
    offset 0 and [2^63] sent bytes, which exceeds [totalbytes]; the
    subtraction wraps to [2^63] and the four values sum to [2^64]. *)
Lemma series_exceed_totalbytes_after_wrap :
  range_peers_sound (Sample.world "" None) ∧
  range_peermap_sound (Sample.world "" None) ∧
  aggregate (Sample.world "" None) Sample.heavy_links = Ok (Sample.heavy_summaries, 0) ∧
  ∃ ip peer,
    range_peermap (Sample.world "" None) Sample.heavy_summaries !! 0%nat = Some (ip, peer) ∧
    render_loop (Sample.world "" None) 0
      (take 0 (range_peermap (Sample.world "" None) Sample.heavy_summaries)) render_init
      = Ok render_init ∧
    chart_series 0 (offset render_init) peer = [0; 2 ^ 63; 0; 2 ^ 63] ∧
    ¬ (offset render_init + txbytes peer + rxbytes peer ≤ 0) ∧
    Zsum id (chart_series 0 (offset render_init) peer) ≠ 0.
Proof.
  split_and!; [intros m; reflexivity..|reflexivity|].
  exists "200::1", {| ports := ["1"]; txbytes := 2 ^ 63; rxbytes := 0; coords := "[1]" |}.
  split_and!; [reflexivity..| |]; by vm_compute.
Qed.

(** ** The paths of the dashboard handler *)

Section handler_paths.
Context (e : env) (cfg : config).

Lemma length_zero_iff (s : string) : (String.length s =? 0)%nat = true ↔ s = "".
Proof. destruct s; simpl; split; intros; done. Qed.

(** After a decoded answer the handler is decided by the [status] field. *)
Lemma handler_answered b m :
  answered e cfg b m →
  handler e cfg =
  match as_string (m !! "status") with
  | Panic => Panicked
  | Ok status =>
      if negb (String.eqb status "success")
      then error_page e b "Non-successful response"
      else match peers_page e cfg b m with
           | Panic => Panicked
           | Ok page => Returned [page]
           end
  end.
Proof.
  intros (Hb & (admin & Hurl & Hdial) & [j Hj] & Hread & Hm).
  unfold handler. rewrite Hb, Hurl, Hdial, Hj. simpl.
  destruct (String.length (conn_Read e) =? 0)%nat eqn:Hlen.
  - by apply length_zero_iff in Hlen.
  - by rewrite Hm.
Qed.

Lemma handler_no_template : ReadFile e "template.html" = None → handler e cfg = Exit.
Proof. intros H. unfold handler. by rewrite H. Qed.

Lemma handler_bad_address : url_Parse e (adminaddr cfg) = None → handler e cfg = Exit.
Proof. intros H. unfold handler. rewrite H. by destruct (ReadFile e "template.html"). Qed.

Lemma handler_dial_failure b admin :
  ReadFile e "template.html" = Some b →
  url_Parse e (adminaddr cfg) = Some admin →
  net_Dial e (Scheme admin)
    (if String.eqb (Scheme admin) "unix" then Path admin else Host admin) = false →
  handler e cfg = Returned [].
Proof. intros Hb Hurl Hdial. unfold handler. by rewrite Hb, Hurl, Hdial. Qed.

Lemma handler_no_response b admin :
  ReadFile e "template.html" = Some b →
  url_Parse e (adminaddr cfg) = Some admin →
  net_Dial e (Scheme admin)
    (if String.eqb (Scheme admin) "unix" then Path admin else Host admin) = true →
  is_Some (json_Marshal e request_map) →
  conn_Read e = "" →
  handler e cfg = error_page e b "No response from admin socket".
Proof.
  intros Hb Hurl Hdial [j Hj] Hread. unfold handler.
  by rewrite Hb, Hurl, Hdial, Hj, Hread.
Qed.

Lemma handler_bad_json b admin :
  ReadFile e "template.html" = Some b →
  url_Parse e (adminaddr cfg) = Some admin →
  net_Dial e (Scheme admin)
    (if String.eqb (Scheme admin) "unix" then Path admin else Host admin) = true →
  is_Some (json_Marshal e request_map) →
  conn_Read e ≠ "" →
  json_Unmarshal e (conn_Read e) request_map = None →
  handler e cfg = error_page e b "Unable to unmarshal JSON".
Proof.
  intros Hb Hurl Hdial [j Hj] Hread Hm. unfold handler.
  rewrite Hb, Hurl, Hdial, Hj. simpl.
  destruct (String.length (conn_Read e) =? 0)%nat eqn:Hlen.
  - by apply length_zero_iff in Hlen.
  - by rewrite Hm.
Qed.

Lemma handler_unsuccessful b m status :
  answered e cfg b m →
  m !! "status" = Some (JString status) → status ≠ "success" →
  handler e cfg = error_page e b "Non-successful response".
Proof.
  intros Hans Hs Hne. rewrite (handler_answered b m Hans), Hs. simpl.
  destruct (String.eqb status "success") eqn:Heq; [|done].
  by apply String.eqb_eq in Heq.
Qed.

Lemma handler_status_panic b m :
  answered e cfg b m →
  (∀ s, m !! "status" ≠ Some (JString s)) →
  handler e cfg = Panicked.
Proof.
  intros Hans Hs. rewrite (handler_answered b m Hans).
  destruct (m !! "status") as [[| | |s| |]|] eqn:Hm; try done. by destruct (Hs s).
Qed.
End handler_paths.

(** C2, on the code.  Once the admin socket has answered and the answer is
    decoded, a [status] that is a string other than "success" gives the page
    with "Non-successful response" in place of [%PEERS%]; but a [status] that
    is absent or not a string makes the type assertion of line 127 panic:
    no page is written. *)
Theorem status_check (e : env) (cfg : config) (b : string) (m : gmap string json) :
  answered e cfg b m →
  (∀ status,
     m !! "status" = Some (JString status) → status ≠ "success" →
     handler e cfg =
     Returned [fmt_Sprintf e (Replace b "%PEERS%" "Non-successful response")]) ∧
  ((∀ s, m !! "status" ≠ Some (JString s)) → handler e cfg = Panicked).
Proof.
  intros Hans. split.
  - intros status Hs Hne. by apply (handler_unsuccessful e cfg b m status).
  - intros Hs. by apply (handler_status_panic e cfg b m).
Qed.

Lemma status_check_witness :
  answered (Sample.world Sample.page (Some request_map)) Sample.cfg Sample.page request_map ∧
  request_map !! "status" = None ∧
  handler (Sample.world Sample.page (Some request_map)) Sample.cfg = Panicked.
Proof.
  assert (Hans : answered (Sample.world Sample.page (Some request_map)) Sample.cfg
                   Sample.page request_map).
  { split_and!; [reflexivity|by exists Sample.socket|by eexists|done|reflexivity]. }
  split_and!; [exact Hans|reflexivity|].
  apply (status_check _ _ _ _ Hans). intros s Hs. discriminate Hs.
Defined.

(** C3, on the code.  With the template read and the admin address parsed:
    an empty read, an answer that is not JSON and a status other than
    "success" each give the page with a message in place of [%PEERS%]; but
    when [net.Dial] fails the handler returns without writing anything. *)
Theorem query_failures (e : env) (cfg : config) (b : string) (admin : URL) :
  ReadFile e "template.html" = Some b →
  url_Parse e (adminaddr cfg) = Some admin →
  (net_Dial e (Scheme admin)
     (if String.eqb (Scheme admin) "unix" then Path admin else Host admin) = false →
   handler e cfg = Returned []) ∧
  (net_Dial e (Scheme admin)
     (if String.eqb (Scheme admin) "unix" then Path admin else Host admin) = true →
   is_Some (json_Marshal e request_map) →
   (conn_Read e = "" →
    handler e cfg =
    Returned [fmt_Sprintf e (Replace b "%PEERS%" "No response from admin socket")]) ∧
   (conn_Read e ≠ "" → json_Unmarshal e (conn_Read e) request_map = None →
    handler e cfg =
    Returned [fmt_Sprintf e (Replace b "%PEERS%" "Unable to unmarshal JSON")]) ∧
   (∀ m status,
      conn_Read e ≠ "" → json_Unmarshal e (conn_Read e) request_map = Some m →
      m !! "status" = Some (JString status) → status ≠ "success" →
      handler e cfg =
      Returned [fmt_Sprintf e (Replace b "%PEERS%" "Non-successful response")])).
Proof.
  intros Hb Hurl. split.
  - intros Hdial. by apply (handler_dial_failure e cfg b admin).
  - intros Hdial Hj. split_and!.
    + intros Hread. by apply (handler_no_response e cfg b admin).
    + intros Hread Hm. by apply (handler_bad_json e cfg b admin).
    + intros m status Hread Hm Hs Hne.
      apply (handler_unsuccessful e cfg b m status); [|done..].
      split_and!; eauto.
Qed.

Lemma query_failures_witness :
  ReadFile (Sample.run (λ s, s) Sample.page false "" None) "template.html"
    = Some Sample.page ∧
  url_Parse (Sample.run (λ s, s) Sample.page false "" None) (adminaddr Sample.cfg)
    = Some Sample.socket ∧
  handler (Sample.run (λ s, s) Sample.page false "" None) Sample.cfg = Returned [].
Proof.
  split_and!; [reflexivity..|].
  by apply (query_failures (Sample.run (λ s, s) Sample.page false "" None) Sample.cfg
              Sample.page Sample.socket eq_refl eq_refl).
Defined.

(** C7, on the code.  When the admin socket sends nothing, the page written
    for the template ["<h1>%HOSTNAME%</h1>%PEERS%"] still holds
    [%HOSTNAME%], whatever the node name: only [%PEERS%] was replaced
    (lines 102, 115, 122 and 128); on the path of a successful answer both
    tokens are replaced (lines 199-200). *)
Theorem error_page_keeps_hostname_token (fmt : string → string) (name : string) :
  handler (Sample.run fmt Sample.page true "" None)
    {| nodename := name; adminaddr := adminaddr Sample.cfg;
       listenaddr := listenaddr Sample.cfg |}
  = Returned [fmt "<h1>%HOSTNAME%</h1>No response from admin socket"] ∧
  handler (Sample.run fmt Sample.page true "{...}" (Some (Sample.reply ∅))) Sample.cfg
  = Returned [fmt "<h1>node1</h1><div>There are no connected peers at this time.</div>"].
Proof. split; reflexivity. Qed.

(** C6, as it holds.  [main] does not look at the admin address: it serves
    whenever the listen address can be served.  An address that
    [url.Parse] rejects is fatal when a dashboard request is handled;
    requests for the static files are served without it. *)
Theorem bad_adminaddr_fatal_on_dashboard_request (e : env) (hostname : option string)
    (listen : string → bool) (args : flags) :
  url_Parse e (adminaddr (configure hostname args)) = None →
  listen (listenaddr (configure hostname args)) = true →
  main hostname listen args = Serving (configure hostname args) ∧
  handler e (configure hostname args) = Exit ∧
  serve e (configure hostname args) "/" = Exit ∧
  (∀ path, dispatch path = StaticFile →
           serve e (configure hostname args) path = filehandler e path).
Proof.
  intros Hurl Hlisten. split_and!.
  - unfold main. by rewrite Hlisten.
  - by apply handler_bad_address.
  - unfold serve. simpl. by apply handler_bad_address.
  - intros path Hpath. unfold serve. by rewrite Hpath.
Qed.

Lemma bad_adminaddr_fatal_on_dashboard_request_witness :
  url_Parse (Sample.world Sample.page None)
    (adminaddr (configure (Some "node1")
       {| flag_nodename := None; flag_adminaddr := Some ":9001"; flag_listenaddr := None |}))
    = None ∧
  serve (Sample.world Sample.page None)
    (configure (Some "node1")
       {| flag_nodename := None; flag_adminaddr := Some ":9001"; flag_listenaddr := None |})
    "/" = Exit.
Proof.
  split; [reflexivity|].
  destruct (bad_adminaddr_fatal_on_dashboard_request (Sample.world Sample.page None)
              (Some "node1") (λ _, true)
              {| flag_nodename := None; flag_adminaddr := Some ":9001";
                 flag_listenaddr := None |} eq_refl eq_refl) as (_ & _ & Hserve & _).
  exact Hserve.
Defined.

(** C6 fails at start-up: with the unparseable address [":9001"] the process
    starts serving, and a request for the style sheet is answered. *)
Lemma bad_adminaddr_not_fatal_at_startup :
  let args := {| flag_nodename := None; flag_adminaddr := Some ":9001";
                 flag_listenaddr := None |} in
  let cfg := configure (Some "node1") args in
  url_Parse (Sample.world Sample.page None) (adminaddr cfg) = None ∧
  main (Some "node1") (λ _, true) args = Serving cfg ∧
  main (Some "node1") (λ _, true) args ≠ Exited ∧
  serve (Sample.world Sample.page None) cfg "/style.css" = Returned ["body { margin: 0 }"].
Proof. split_and!; [reflexivity..|discriminate|reflexivity]. Qed.

(** ** Counters decoded through float64 *)

Lemma digits2_pos_iter_xO m k :
  digits2_pos (Pos.iter xO m k) = (digits2_pos m + k)%positive.
Proof.
  induction k as [|k IH] using Pos.peano_ind.
  - simpl. lia.
  - rewrite Pos.iter_succ. simpl. rewrite IH. lia.
Qed.

Lemma Zpos_iter_xO m k : Z.pos (Pos.iter xO m k) = Z.pos m * 2 ^ Z.pos k.
Proof.
  induction k as [|k IH] using Pos.peano_ind.
  - simpl. lia.
  - rewrite Pos.iter_succ, Pos2Z.inj_succ, Z.pow_succ_r by lia.
    rewrite Pos2Z.inj_xO, IH. lia.
Qed.

Lemma digits2_pos_lower m : 2 ^ (Z.pos (digits2_pos m) - 1) ≤ Z.pos m.
Proof.
  induction m as [m IH|m IH|]; simpl; [| |done].
  - rewrite Pos2Z.inj_succ. replace (Z.succ (Z.pos (digits2_pos m)) - 1)
      with (Z.succ (Z.pos (digits2_pos m) - 1)) by lia.
    rewrite Z.pow_succ_r by lia. lia.
  - rewrite Pos2Z.inj_succ. replace (Z.succ (Z.pos (digits2_pos m)) - 1)
      with (Z.succ (Z.pos (digits2_pos m) - 1)) by lia.
    rewrite Z.pow_succ_r by lia. lia.
Qed.

Lemma digits2_pos_le_53 m : Z.pos m < 2 ^ 53 → Z.pos (digits2_pos m) ≤ 53.
Proof.
  intros Hm. destruct (Z.le_gt_cases (Z.pos (digits2_pos m)) 53) as [|Hgt]; [done|].
  pose proof (digits2_pos_lower m) as Hlow.
  assert (2 ^ 53 ≤ 2 ^ (Z.pos (digits2_pos m) - 1)) by (apply Z.pow_le_mono_r; lia).
  lia.
Qed.

(** A mantissa of 53 bits is not rounded. *)
Lemma binary_round_aux_exact mz ez :
  Z.pos (digits2_pos mz) = 53 → -52 ≤ ez ≤ 0 →
  binary_round_aux 53 1024 false (Z.pos mz) ez loc_Exact = S754_finite false mz ez.
Proof.
  intros Hd He. unfold binary_round_aux, shr_fexp, Zdigits2. simpl shr_record_of_loc.
  rewrite Hd.
  assert (Hf : fexp 53 1024 (53 + ez) - ez = 0) by (unfold fexp, emin; lia).
  rewrite Hf. simpl. rewrite Hd, Hf. simpl.
  destruct (ez <=? 1024 - 53) eqn:Hle; [done|]. apply Z.leb_gt in Hle. lia.
Qed.

(** An integer below [2^53] is a float64: its literal decodes to a
    mantissa that is the integer shifted to 53 bits. *)
Lemma float64_of_Z_exact n :
  0 < n < 2 ^ 53 →
  ∃ m x, float64_of_Z n = S754_finite false m x ∧ -52 ≤ x ≤ 0 ∧ Z.pos m = n * 2 ^ (- x).
Proof.
  intros [Hpos Hlt]. destruct n as [|p|p]; try lia.
  unfold float64_of_Z, binary_normalize, binary_round.
  pose proof (digits2_pos_le_53 p Hlt) as Hd.
  assert (Hf : fexp 53 1024 (Z.pos (digits2_pos p) + 0) = Z.pos (digits2_pos p) - 53)
    by (unfold fexp, emin; lia).
  rewrite Hf. unfold shl_align.
  destruct (Z.pos (digits2_pos p) - 53 - 0) as [|k|k] eqn:Hk; try lia.
  - rewrite binary_round_aux_exact by lia. exists p, 0. split_and!; [done|lia..].
  - rewrite binary_round_aux_exact.
    + exists (Pos.iter xO p k), (Z.pos (digits2_pos p) - 53). split_and!; [done|lia..|].
      rewrite Zpos_iter_xO. f_equal. f_equal. lia.
    + rewrite digits2_pos_iter_xO. lia.
    + lia.
Qed.

Lemma to_uint64_float64_of_Z (e : env) n :
  0 ≤ n < 2 ^ 53 → to_uint64 e (float64_of_Z n) = n.
Proof.
  intros [Hn Hlt]. destruct (Z.eq_dec n 0) as [->|Hne]; [reflexivity|].
  destruct (float64_of_Z_exact n) as (m & x & -> & Hx & Hm); [lia|].
  unfold to_uint64, uint64_of_float64, trunc_magnitude.
  rewrite Z.shiftl_div_pow2 by lia. rewrite Hm, Z.div_mul by (apply Z.pow_nonzero; lia).
  assert (n < U64.modulus) by (unfold U64.modulus; lia).
  destruct (n <? U64.modulus) eqn:Hlt64; [done|]. apply Z.ltb_ge in Hlt64. lia.
Qed.





(** * Further properties of the handlers *)

(** ** Substitution into the template *)

Lemma prefix_first_differs p old' c s :
  Ascii.eqb p c = false → String.prefix (String p old') (String c s) = false.
Proof.
  intros Hpc. simpl. destruct (ascii_dec p c) as [->|]; [|done].
  by rewrite Ascii.eqb_refl in Hpc.
Qed.

(** A text in which a character of [old] does not occur has no occurrence
    of [old] at its start. *)
Lemma prefix_free_of c old t :
  free_of c old = false → free_of c t = true → String.prefix old t = false.
Proof.
  revert t. induction old as [|a old IH]; intros t Hold Ht; [done|].
  destruct t as [|b t]; [done|]. simpl in *.
  apply andb_true_iff in Ht as [Hb Ht].
  destruct (ascii_dec a b) as [->|]; [|done].
  apply IH; [|done]. apply negb_true_iff in Hb. destruct (Ascii.eqb c b); [done|].
  by simpl in Hold.
Qed.

(** The bytes of a matched occurrence still to be dropped are dropped. *)
Lemma Replace_from_skip r old new s :
  Replace_from (String.length r) old new (r +:+ s) = Replace_from 0 old new s.
Proof. induction r as [|x r IH]; [done|]. rewrite append_cons. simpl. apply IH. Qed.

(** An occurrence at the start is replaced and the scan goes on behind it. *)
Lemma Replace_from_occurrence p old' new s :
  Replace_from 0 (String p old') new (String p old' +:+ s) =
  new +:+ Replace_from 0 (String p old') new s.
Proof.
  change (String p old' +:+ s) with (String p (old' +:+ s)).
  cbn [Replace_from].
  change (String p (old' +:+ s)) with (String p old' +:+ s).
  rewrite prefix_append. simpl. by rewrite Replace_from_skip.
Qed.

(** A stretch without the first character of [old] is copied. *)
Lemma Replace_from_free p old' new pre s :
  free_of p pre = true →
  Replace_from 0 (String p old') new (pre +:+ s) =
  pre +:+ Replace_from 0 (String p old') new s.
Proof.
  induction pre as [|c pre IH]; intros Hfree; [done|].
  simpl in Hfree. apply andb_true_iff in Hfree as [Hc Hfree].
  apply negb_true_iff in Hc.
  change (String c pre +:+ s) with (String c (pre +:+ s)). cbn [Replace_from].
  rewrite (prefix_first_differs p old' c _ Hc). simpl. by rewrite IH.
Qed.

Lemma Replace_free p old' new s :
  free_of p s = true → Replace s (String p old') new = s.
Proof.
  intros Hfree. unfold Replace.
  rewrite <- (append_nil_r s) at 1. rewrite Replace_from_free by done.
  simpl. apply append_nil_r.
Qed.

Lemma Replace_hostname pre name rest :
  free_of "%" pre = true →
  Replace (pre +:+ "%HOSTNAME%" +:+ rest) "%HOSTNAME%" name =
  pre +:+ name +:+ Replace rest "%HOSTNAME%" name.
Proof.
  intros Hpre. unfold Replace. rewrite Replace_from_free by done.
  by rewrite (Replace_from_occurrence "%" "HOSTNAME%").
Qed.

Lemma Replace_peers pre new rest :
  free_of "%" pre = true →
  Replace (pre +:+ "%PEERS%" +:+ rest) "%PEERS%" new =
  pre +:+ new +:+ Replace rest "%PEERS%" new.
Proof.
  intros Hpre. unfold Replace. rewrite Replace_from_free by done.
  by rewrite (Replace_from_occurrence "%" "PEERS%").
Qed.

Lemma Replace_from_no_match old new c s :
  String.prefix old (String c s) = false →
  Replace_from 0 old new (String c s) = String c (Replace_from 0 old new s).
Proof. intros H. cbn [Replace_from]. by rewrite H. Qed.

(** The token [%PEERS%] is left alone by the substitution of [%HOSTNAME%]. *)
Lemma Replace_hostname_over_peers name post :
  free_of "%" post = true →
  Replace ("%PEERS%" +:+ post) "%HOSTNAME%" name = "%PEERS%" +:+ post.
Proof.
  intros Hpost. unfold Replace.
  change ("%PEERS%" +:+ post) with (String "%" ("PEERS" +:+ String "%" post)).
  rewrite Replace_from_no_match by reflexivity.
  rewrite (Replace_from_free "%" "HOSTNAME%" name "PEERS") by reflexivity.
  rewrite Replace_from_no_match.
  - fold (Replace post "%HOSTNAME%" name). by rewrite Replace_free.
  - change (String.prefix "%HOSTNAME%" (String "%" post))
      with (String.prefix "HOSTNAME%" post).
    by apply (prefix_free_of "%").
Qed.

(** The token [%HOSTNAME%] is left alone by the substitution of [%PEERS%]. *)
Lemma Replace_peers_over_hostname new rest :
  Replace ("%HOSTNAME%" +:+ rest) "%PEERS%" new =
  "%HOSTNAME" +:+ Replace ("%" +:+ rest) "%PEERS%" new.
Proof.
  unfold Replace.
  change ("%HOSTNAME%" +:+ rest) with (String "%" ("HOSTNAME" +:+ String "%" rest)).
  rewrite Replace_from_no_match by reflexivity.
  by rewrite (Replace_from_free "%" "PEERS%" new "HOSTNAME") by reflexivity.
Qed.

(** Lines 199-200 on a template with one token of each kind and no other
    percent sign. *)
Lemma Replace_both pre mid post name s :
  free_of "%" pre = true → free_of "%" mid = true → free_of "%" post = true →
  free_of "%" name = true →
  Replace (Replace (pre +:+ "%HOSTNAME%" +:+ mid +:+ "%PEERS%" +:+ post)
             "%HOSTNAME%" name) "%PEERS%" s =
  pre +:+ name +:+ mid +:+ s +:+ post.
Proof.
  intros Hpre Hmid Hpost Hname.
  rewrite Replace_hostname by done.
  assert (Replace (mid +:+ "%PEERS%" +:+ post) "%HOSTNAME%" name
          = mid +:+ "%PEERS%" +:+ post) as ->.
  { unfold Replace. rewrite Replace_from_free by done.
    fold (Replace ("%PEERS%" +:+ post) "%HOSTNAME%" name).
    by rewrite Replace_hostname_over_peers. }
  unfold Replace. rewrite !Replace_from_free by done.
  rewrite (Replace_from_occurrence "%" "PEERS%").
  fold (Replace post "%PEERS%" s). by rewrite Replace_free.
Qed.

(** When the first [c] of a text and the first [c] of [old] are not at the
    same place, [old] is not at the start of the text. *)
Lemma prefix_first_token c o1 o2 mid r :
  free_of c o1 = true → free_of c mid = true →
  String.prefix (o1 +:+ String c o2) (mid +:+ String c r) = true → mid = o1.
Proof.
  revert mid. induction o1 as [|a o1 IH]; intros mid Ho Hmid Hpre.
  - destruct mid as [|b mid]; [done|]. exfalso.
    simpl in Hmid. apply andb_true_iff in Hmid as [Hb _]. apply negb_true_iff in Hb.
    change ("" +:+ String c o2) with (String c o2) in Hpre.
    rewrite append_cons in Hpre. by rewrite (prefix_first_differs c o2 b _ Hb) in Hpre.
  - simpl in Ho. apply andb_true_iff in Ho as [Ha Ho]. apply negb_true_iff in Ha.
    rewrite append_cons in Hpre. destruct mid as [|b mid].
    + exfalso. change ("" +:+ String c r) with (String c r) in Hpre.
      simpl in Hpre. destruct (ascii_dec a c) as [->|]; [|done].
      by rewrite Ascii.eqb_refl in Ha.
    + simpl in Hmid. apply andb_true_iff in Hmid as [_ Hmid].
      rewrite append_cons in Hpre. simpl in Hpre.
      destruct (ascii_dec a b) as [->|]; [|done]. f_equal. by apply IH.
Qed.

(** The error pages on the same template. *)
Lemma Replace_peers_only pre mid post msg :
  free_of "%" pre = true → free_of "%" mid = true → free_of "%" post = true →
  mid ≠ "PEERS" →
  Replace (pre +:+ "%HOSTNAME%" +:+ mid +:+ "%PEERS%" +:+ post) "%PEERS%" msg =
  pre +:+ "%HOSTNAME%" +:+ mid +:+ msg +:+ post.
Proof.
  intros Hpre Hmid Hpost Hne. unfold Replace. rewrite Replace_from_free by done.
  fold (Replace ("%HOSTNAME%" +:+ mid +:+ "%PEERS%" +:+ post) "%PEERS%" msg).
  rewrite Replace_peers_over_hostname. unfold Replace.
  change ("%" +:+ mid +:+ "%PEERS%" +:+ post)
    with (String "%" (mid +:+ "%PEERS%" +:+ post)).
  rewrite Replace_from_no_match.
  - rewrite Replace_from_free by done.
    rewrite (Replace_from_occurrence "%" "PEERS%").
    fold (Replace post "%PEERS%" msg). rewrite Replace_free by done.
    reflexivity.
  - change (String.prefix "%PEERS%" (String "%" (mid +:+ "%PEERS%" +:+ post)))
      with (String.prefix ("PEERS" +:+ String "%" "") (mid +:+ String "%" ("PEERS%" +:+ post))).
    destruct (String.prefix _ _) eqn:Hp; [|done].
    by apply (prefix_first_token "%") in Hp.
Qed.

Lemma handler_marshal_failure (e : env) (cfg : config) b admin :
  ReadFile e "template.html" = Some b →
  url_Parse e (adminaddr cfg) = Some admin →
  net_Dial e (Scheme admin)
    (if String.eqb (Scheme admin) "unix" then Path admin else Host admin) = true →
  json_Marshal e request_map = None →
  handler e cfg = error_page e b "Unable to marshal JSON".
Proof. intros Hb Hurl Hdial Hj. unfold handler. by rewrite Hb, Hurl, Hdial, Hj. Qed.

(** X1. The page of a successful answer.  For a template with one
    [%HOSTNAME%] token followed by one [%PEERS%] token and no other percent
    sign, and a node name without a percent sign, the text handed to
    [fmt.Fprintf] is the template with the node name and the rendered
    peers in place of the two tokens. *)
Theorem success_page_spliced (e : env) (cfg : config) (pre mid post : string)
    (m response peers : gmap string json) (peermap : gmap string switchPortData)
    (totalbytes : Z) (s : string) :
  answered e cfg (pre +:+ "%HOSTNAME%" +:+ mid +:+ "%PEERS%" +:+ post) m →
  free_of "%" pre = true → free_of "%" mid = true → free_of "%" post = true →
  free_of "%" (nodename cfg) = true →
  m !! "status" = Some (JString "success") →
  m !! "response" = Some (JObject response) →
  response !! "switchpeers" = Some (JObject peers) →
  aggregate e peers = Ok (peermap, totalbytes) →
  render e peermap totalbytes = Ok s →
  handler e cfg =
  Returned [fmt_Sprintf e (pre +:+ nodename cfg +:+ mid +:+ s +:+ post)].
Proof.
  intros Hans Hpre Hmid Hpost Hname Hstatus Hresp Hpeers Hagg Hrender.
  rewrite (handler_answered e cfg _ m Hans), Hstatus. simpl.
  unfold peers_page. rewrite Hresp. simpl. rewrite Hpeers. simpl.
  rewrite Hagg. simpl. rewrite Hrender. simpl.
  by rewrite Replace_both.
Qed.

Lemma success_page_spliced_witness :
  answered (Sample.world Sample.page (Some (Sample.reply ∅))) Sample.cfg
    ("<h1>" +:+ "%HOSTNAME%" +:+ "</h1>" +:+ "%PEERS%" +:+ "") (Sample.reply ∅) ∧
  handler (Sample.world Sample.page (Some (Sample.reply ∅))) Sample.cfg =
  Returned ["<h1>node1</h1><div>There are no connected peers at this time.</div>"].
Proof.
  assert (Hans : answered (Sample.world Sample.page (Some (Sample.reply ∅))) Sample.cfg
                   ("<h1>" +:+ "%HOSTNAME%" +:+ "</h1>" +:+ "%PEERS%" +:+ "")
                   (Sample.reply ∅)).
  { split_and!; [reflexivity|by exists Sample.socket|by eexists|done|reflexivity]. }
  split; [exact Hans|].
  by apply (success_page_spliced (Sample.world Sample.page (Some (Sample.reply ∅)))
              Sample.cfg "<h1>" "</h1>" "" (Sample.reply ∅)
              (<["switchpeers" := JObject ∅]> ∅) ∅ ∅ 0
              "<div>There are no connected peers at this time.</div>" Hans).
Defined.

(** X2. The pages of the error paths.  For the same kind of template
    (whose text between the tokens is not ["PEERS"]), every error path
    after the connection writes the template with its message in place of
    [%PEERS%] and with the [%HOSTNAME%] token still in it. *)
Theorem error_pages_spliced (e : env) (cfg : config) (pre mid post : string)
    (admin : URL) :
  ReadFile e "template.html" =
    Some (pre +:+ "%HOSTNAME%" +:+ mid +:+ "%PEERS%" +:+ post) →
  url_Parse e (adminaddr cfg) = Some admin →
  net_Dial e (Scheme admin)
    (if String.eqb (Scheme admin) "unix" then Path admin else Host admin) = true →
  free_of "%" pre = true → free_of "%" mid = true → free_of "%" post = true →
  mid ≠ "PEERS" →
  let page msg := pre +:+ "%HOSTNAME%" +:+ mid +:+ msg +:+ post in
  (json_Marshal e request_map = None →
   handler e cfg = Returned [fmt_Sprintf e (page "Unable to marshal JSON")]) ∧
  (is_Some (json_Marshal e request_map) →
   (conn_Read e = "" →
    handler e cfg = Returned [fmt_Sprintf e (page "No response from admin socket")]) ∧
   (conn_Read e ≠ "" → json_Unmarshal e (conn_Read e) request_map = None →
    handler e cfg = Returned [fmt_Sprintf e (page "Unable to unmarshal JSON")]) ∧
   (∀ m status,
      conn_Read e ≠ "" → json_Unmarshal e (conn_Read e) request_map = Some m →
      m !! "status" = Some (JString status) → status ≠ "success" →
      handler e cfg = Returned [fmt_Sprintf e (page "Non-successful response")])).
Proof.
  intros Hb Hurl Hdial Hpre Hmid Hpost Hne page. split; [|intros Hj; split_and!].
  - intros Hj. rewrite (handler_marshal_failure e cfg _ admin Hb Hurl Hdial Hj).
    unfold error_page. by rewrite Replace_peers_only.
  - intros Hread. rewrite (handler_no_response e cfg _ admin Hb Hurl Hdial Hj Hread).
    unfold error_page. by rewrite Replace_peers_only.
  - intros Hread Hm.
    rewrite (handler_bad_json e cfg _ admin Hb Hurl Hdial Hj Hread Hm).
    unfold error_page. by rewrite Replace_peers_only.
  - intros m status Hread Hm Hs Hns.
    rewrite (handler_unsuccessful e cfg
               (pre +:+ "%HOSTNAME%" +:+ mid +:+ "%PEERS%" +:+ post) m status);
      [| |done..].
    + unfold error_page. by rewrite Replace_peers_only.
    + split_and!; eauto.
Qed.

Lemma error_pages_spliced_witness :
  ReadFile (Sample.run (λ s, s) Sample.page true "" None) "template.html" =
    Some ("<h1>" +:+ "%HOSTNAME%" +:+ "</h1>" +:+ "%PEERS%" +:+ "") ∧
  handler (Sample.run (λ s, s) Sample.page true "" None) Sample.cfg =
  Returned [fmt_Sprintf (Sample.run (λ s, s) Sample.page true "" None)
              "<h1>%HOSTNAME%</h1>No response from admin socket"].
Proof.
  split; [reflexivity|].
  destruct (error_pages_spliced (Sample.run (λ s, s) Sample.page true "" None)
              Sample.cfg "<h1>" "</h1>" "" Sample.socket)
    as [_ Hrest]; [reflexivity..|discriminate|].
  destruct Hrest as (Hnone & _); [by eexists|]. by apply Hnone.
Defined.

(** * Further properties of the aggregation *)

Section summaries.
Context (e : env).

(** A summary that absorbs further records: their ids are appended, their
    counters added, the coordinate path is kept. *)
Lemma absorb_fold d0 rest :
  ∃ d, foldl (λ d kv, Some (absorb e d kv)) (Some d0) rest = Some d ∧
       ports d = ports d0 ++ rest.*1 ∧
       U64.wrap (txbytes d) = U64.wrap (txbytes d0 + Zsum (λ kv, link_tx e kv.2) rest) ∧
       U64.wrap (rxbytes d) = U64.wrap (rxbytes d0 + Zsum (λ kv, link_rx e kv.2) rest) ∧
       (U64.in_range (txbytes d0) → U64.in_range (txbytes d)) ∧
       (U64.in_range (rxbytes d0) → U64.in_range (rxbytes d)) ∧
       coords d = coords d0.
Proof.
  revert d0. induction rest as [|kv rest IH]; intros d0.
  - exists d0. simpl. rewrite app_nil_r, !Z.add_0_r. by split_and!.
  - destruct (IH (absorb e (Some d0) kv)) as (d & Hd & Hp & Htx & Hrx & Hit & Hir & Hc).
    exists d. cbn [foldl]. split_and!; [done| | | | | |done].
    + rewrite Hp. simpl. by rewrite <- app_assoc.
    + rewrite Htx, Zsum_cons. simpl. unfold U64.add.
      destruct (wrap_cong (txbytes d0 + link_tx e kv.2)) as [j ->].
      apply (wrap_eq_of_cong _ _ j). lia.
    + rewrite Hrx, Zsum_cons. simpl. unfold U64.add.
      destruct (wrap_cong (rxbytes d0 + link_rx e kv.2)) as [j ->].
      apply (wrap_eq_of_cong _ _ j). lia.
    + intros _. apply Hit. simpl. auto with u64.
    + intros _. apply Hir. simpl. auto with u64.
Qed.

(** The running total after the loop, from the empty state. *)
Lemma aggregate_loop_totalbytes l pm t :
  aggregate_loop e l (∅, 0) = Ok (pm, t) → t = U64.wrap (Zsum (raw_bytes e) l).
Proof.
  intros Hagg.
  destruct (aggregate_loop_cong e _ _ _ Hagg) as (_ & j & _ & Ht). simpl in Ht.
  rewrite <- (wrap_small t).
  - by apply (wrap_eq_of_cong _ _ j).
  - apply (aggregate_loop_total_in_range e _ _ _ Hagg). auto with u64.
Qed.

(** Every record met by a loop that ends has a string address and numeric
    counters. *)
Lemma aggregate_loop_typed l st st' :
  aggregate_loop e l st = Ok st' → Forall (λ kv, typed_link kv.2 = true) l.
Proof.
  revert st. induction l as [|[k v] l IH]; intros [pm t]; simpl; [by constructor|].
  aggregate_iteration e pm t k v pm1 t1 Hstep.
  intros Hloop. constructor; [|by apply (IH _ Hloop)]. simpl.
  clear Hloop IH. unfold aggregate_step in Hstep. unfold typed_link, link_field.
  destruct v as [| | | | |peer]; try discriminate. simpl in Hstep.
  destruct (peer !! "ip") as [[| | |ip| |]|]; try discriminate. simpl in Hstep.
  destruct (pm !! ip);
    destruct (peer !! "bytes_sent") as [[| |ftx| | |]|]; try discriminate;
    destruct (peer !! "bytes_recvd") as [[| |frx| | |]|]; try discriminate; done.
Qed.
End summaries.

(** The summary of an address is made of the records that carry it. *)
Lemma aggregate_summary (e : env) (peers : gmap string json)
    (peermap : gmap string switchPortData) (totalbytes : Z) (a : string) :
  aggregate e peers = Ok (peermap, totalbytes) →
  match links_of a (range_peers e peers) with
  | [] => peermap !! a = None
  | first :: rest =>
      ∃ d, peermap !! a = Some d ∧
           ports d = (first :: rest).*1 ∧
           txbytes d = U64.wrap (Zsum (λ kv, link_tx e kv.2) (first :: rest)) ∧
           rxbytes d = U64.wrap (Zsum (λ kv, link_rx e kv.2) (first :: rest)) ∧
           link_coords first.2 = Some (coords d)
  end.
Proof.
  intros Hagg. unfold aggregate in Hagg.
  pose proof (aggregate_loop_lookup e _ _ _ a Hagg) as Hlook.
  simpl in Hlook. rewrite lookup_empty in Hlook.
  destruct (links_of a (range_peers e peers)) as [|first rest] eqn:Hhits; [done|].
  destruct (aggregate_loop_first_coords e _ _ _ a _ _ Hagg (lookup_empty _) Hhits)
    as [c Hc].
  cbn [foldl] in Hlook.
  destruct (absorb_fold e (absorb e None first) rest)
    as (d & Hd & Hp & Htx & Hrx & Hit & Hir & Hcd).
  rewrite Hd in Hlook. exists d. split_and!; [done|done| | |].
  - rewrite <- (wrap_small (txbytes d)) by (apply Hit; simpl; auto with u64).
    by rewrite Htx, Zsum_cons.
  - rewrite <- (wrap_small (rxbytes d)) by (apply Hir; simpl; auto with u64).
    by rewrite Hrx, Zsum_cons.
  - rewrite Hcd. simpl. by rewrite Hc.
Qed.

(** X3. The summary of an address after any number of links.  When the
    aggregation ends, an address carried by no record has no summary, and
    an address carried by some records has the summary made of them, in
    the order in which [range] met them: their link ids, the uint64 sums of
    their sent and of their received bytes, and the coordinate path of the
    first of them. *)
Theorem summary_of_address (e : env) (peers : gmap string json)
    (peermap : gmap string switchPortData) (totalbytes : Z) (a : string) :
  aggregate e peers = Ok (peermap, totalbytes) →
  match links_of a (range_peers e peers) with
  | [] => peermap !! a = None
  | first :: rest =>
      ∃ d, peermap !! a = Some d ∧
           ports d = (first :: rest).*1 ∧
           txbytes d = U64.wrap (Zsum (λ kv, link_tx e kv.2) (first :: rest)) ∧
           rxbytes d = U64.wrap (Zsum (λ kv, link_rx e kv.2) (first :: rest)) ∧
           link_coords first.2 = Some (coords d)
  end.
Proof. apply aggregate_summary. Qed.

Lemma summary_of_address_witness :
  aggregate (Sample.world "" None) Sample.three_links = Ok (Sample.three_summaries, 42) ∧
  ∃ d, Sample.three_summaries !! "200::1" = Some d ∧
       ports d = ["3"; "1"] ∧ txbytes d = 11 ∧ rxbytes d = 21 ∧ coords d = "[1 2]".
Proof.
  assert (Hagg : aggregate (Sample.world "" None) Sample.three_links
                 = Ok (Sample.three_summaries, 42)) by reflexivity.
  split; [exact Hagg|].
  pose proof (summary_of_address (Sample.world "" None) Sample.three_links
                Sample.three_summaries 42 "200::1" Hagg) as Hsum.
  assert (Hhits : links_of "200::1" (range_peers (Sample.world "" None) Sample.three_links)
                  = [("3", link_record "200::1" 1 1 "[1 2]");
                     ("1", link_record "200::1" 10 20 "[1]")]) by reflexivity.
  rewrite Hhits in Hsum. destruct Hsum as (d & Hd & Hp & Htx & Hrx & Hc).
  exists d. split_and!; [done|done| | |].
  - rewrite Htx. reflexivity.
  - rewrite Hrx. reflexivity.
  - by injection Hc as <-.
Defined.

(** The records with a given address are the same in every order of
    visit, up to their order. *)
Lemma links_of_perm (a : string) (l1 l2 : list (string * json)) :
  l1 ≡ₚ l2 → links_of a l1 ≡ₚ links_of a l2.
Proof. intros Hl. unfold links_of. by rewrite Hl. Qed.

Lemma links_of_elem (a : string) (l : list (string * json)) k v :
  (k, v) ∈ links_of a l ↔ link_ip v = Some a ∧ (k, v) ∈ l.
Proof. unfold links_of. by rewrite list_elem_of_filter. Qed.

(** X4. The peer map has a summary for exactly the addresses that occur.
    When the aggregation ends, an address is a key of the peer map if and
    only if some raw link record carries it. *)
Theorem peermap_addresses (e : env) (peers : gmap string json)
    (peermap : gmap string switchPortData) (totalbytes : Z) (a : string) :
  range_peers_sound e →
  aggregate e peers = Ok (peermap, totalbytes) →
  is_Some (peermap !! a) ↔ ∃ k v, peers !! k = Some v ∧ link_ip v = Some a.
Proof.
  intros Hrange Hagg. unfold aggregate in Hagg.
  pose proof (aggregate_loop_lookup e _ _ _ a Hagg) as Hlook.
  simpl in Hlook. rewrite lookup_empty in Hlook. rewrite Hlook.
  destruct (links_of a (range_peers e peers)) as [|[k v] rest] eqn:Hhits.
  - simpl. split; [by intros [? ?]|]. intros (k & v & Hk & Hip). exfalso.
    assert ((k, v) ∈ links_of a (range_peers e peers)) as Hin.
    { apply links_of_elem. split; [done|].
      rewrite (Hrange peers). by apply elem_of_map_to_list. }
    rewrite Hhits in Hin. by apply not_elem_of_nil in Hin.
  - split.
    + intros _. exists k, v.
      assert ((k, v) ∈ links_of a (range_peers e peers)) as Hin
        by (rewrite Hhits; left).
      apply links_of_elem in Hin as [Hip Hin]. split; [|done].
      rewrite (Hrange peers) in Hin. by apply elem_of_map_to_list in Hin.
    + intros _. cbn [foldl].
      destruct (absorb_fold e (absorb e None (k, v)) rest) as (d & -> & _). eauto.
Qed.

Lemma peermap_addresses_witness :
  range_peers_sound (Sample.world "" None) ∧
  aggregate (Sample.world "" None) Sample.three_links = Ok (Sample.three_summaries, 42) ∧
  is_Some (Sample.three_summaries !! "200::2") ∧
  ∃ k v, Sample.three_links !! k = Some v ∧ link_ip v = Some "200::2".
Proof.
  assert (Hs : range_peers_sound (Sample.world "" None)) by (intros m; reflexivity).
  assert (Hagg : aggregate (Sample.world "" None) Sample.three_links
                 = Ok (Sample.three_summaries, 42)) by reflexivity.
  split_and!; [exact Hs|exact Hagg|by eexists|].
  apply (peermap_addresses (Sample.world "" None) Sample.three_links
           Sample.three_summaries 42 "200::2" Hs Hagg).
  by eexists.
Defined.

(** ** The link ids of the summaries *)

Lemma all_ports_insert_fresh (pm : gmap string switchPortData) ip d :
  pm !! ip = None → all_ports (<[ip:=d]> pm) ≡ₚ ports d ++ all_ports pm.
Proof.
  intros Hip. unfold all_ports. by rewrite (map_to_list_insert pm ip d Hip).
Qed.

Lemma all_ports_delete (pm : gmap string switchPortData) ip d :
  pm !! ip = Some d → all_ports pm ≡ₚ ports d ++ all_ports (delete ip pm).
Proof.
  intros Hip. unfold all_ports. by rewrite <- (map_to_list_delete pm ip d Hip).
Qed.

(** One iteration adds the link id of its record, once. *)
Lemma all_ports_absorb (e : env) (pm : gmap string switchPortData) ip k v :
  all_ports (<[ip := absorb e (pm !! ip) (k, v)]> pm) ≡ₚ k :: all_ports pm.
Proof.
  destruct (pm !! ip) as [d0|] eqn:Hd.
  - rewrite <- insert_delete_eq, all_ports_insert_fresh by apply lookup_delete_eq.
    rewrite (all_ports_delete pm ip d0 Hd). simpl.
    by rewrite (Permutation_app_comm (ports d0) [k]).
  - by rewrite all_ports_insert_fresh.
Qed.

Lemma aggregate_loop_all_ports (e : env) l st st' :
  aggregate_loop e l st = Ok st' → all_ports st'.1 ≡ₚ all_ports st.1 ++ l.*1.
Proof.
  revert st. induction l as [|[k v] l IH]; intros [pm t]; simpl.
  - intros [= <-]. by rewrite app_nil_r.
  - aggregate_iteration e pm t k v pm1 t1 Hstep.
    intros Hloop. rewrite (IH _ Hloop). simpl.
    apply aggregate_step_inv in Hstep as (ip & _ & -> & _ & _).
    rewrite all_ports_absorb. simpl. by rewrite Permutation_middle.
Qed.

Lemma length_concat_nonempty {A} (ls : list (list A)) :
  Forall (λ l, l ≠ []) ls → (length ls ≤ length (concat ls))%nat.
Proof.
  induction 1 as [|l ls Hl _ IH]; simpl; [done|].
  rewrite length_app. destruct l; [done|]. simpl. lia.
Qed.

(** X5. No link is lost or counted twice by the grouping.  When the
    aggregation ends, the link ids held by all the summaries together are
    the link ids of the raw records, each once; so there are at most as
    many summaries as links. *)
Theorem links_partitioned (e : env) (peers : gmap string json)
    (peermap : gmap string switchPortData) (totalbytes : Z) :
  range_peers_sound e →
  aggregate e peers = Ok (peermap, totalbytes) →
  all_ports peermap ≡ₚ (map_to_list peers).*1 ∧
  NoDup (all_ports peermap) ∧
  (size peermap ≤ size peers)%nat.
Proof.
  intros Hrange Hagg. unfold aggregate in Hagg.
  assert (Hperm : all_ports peermap ≡ₚ (map_to_list peers).*1).
  { rewrite (aggregate_loop_all_ports e _ _ _ Hagg). simpl.
    unfold all_ports. rewrite map_to_list_empty. simpl. by rewrite (Hrange peers). }
  split_and!; [done| |].
  - rewrite Hperm. apply NoDup_fst_map_to_list.
  - pose proof (aggregate_loop_ports e _ _ _ Hagg (map_Forall_empty _)) as Hports.
    simpl in Hports.
    rewrite <- (length_map_to_list peermap), <- (length_map_to_list peers).
    rewrite <- (length_fmap fst (map_to_list peers)), <- Hperm.
    rewrite <- (length_fmap (λ kd, ports kd.2) (map_to_list peermap)).
    apply length_concat_nonempty, Forall_fmap, Forall_forall.
    intros [ip d] Hin%elem_of_map_to_list. by apply (Hports ip d).
Qed.

Lemma links_partitioned_witness :
  range_peers_sound (Sample.world "" None) ∧
  aggregate (Sample.world "" None) Sample.three_links = Ok (Sample.three_summaries, 42) ∧
  all_ports Sample.three_summaries ≡ₚ ["3"; "1"; "2"] ∧
  (size Sample.three_summaries ≤ size Sample.three_links)%nat.
Proof.
  assert (Hs : range_peers_sound (Sample.world "" None)) by (intros m; reflexivity).
  assert (Hagg : aggregate (Sample.world "" None) Sample.three_links
                 = Ok (Sample.three_summaries, 42)) by reflexivity.
  destruct (links_partitioned (Sample.world "" None) Sample.three_links
              Sample.three_summaries 42 Hs Hagg) as (Hperm & _ & Hsize).
  split_and!; [exact Hs|exact Hagg| |exact Hsize].
  rewrite Hperm. reflexivity.
Defined.

(** ** The order of visit *)

Lemma Zsum_ext {A} (f g : A → Z) l : (∀ x, f x = g x) → Zsum f l = Zsum g l.
Proof. intros Hfg. induction l as [|x l IH]; [done|]. by rewrite !Zsum_cons, Hfg, IH. Qed.

(** The counters of a record depend on the run only through the
    conversion of floats that have no uint64 value. *)
Lemma link_counter_ext (e1 e2 : env) name v :
  uint64_other e1 = uint64_other e2 → link_counter e1 name v = link_counter e2 name v.
Proof. intros Heq. unfold link_counter, to_uint64. by rewrite Heq. Qed.

(** X6. The totals do not depend on the order in which [range] visits the
    raw links.  Two runs of the aggregation on the same map that both end
    give the same [totalbytes] and summaries for the same addresses, with
    the same counters and the same link ids up to their order.  (The
    coordinate path is that of the record met first and may differ.) *)
Theorem aggregate_order_independent (e1 e2 : env) (peers : gmap string json)
    (pm1 pm2 : gmap string switchPortData) (t1 t2 : Z) :
  range_peers_sound e1 → range_peers_sound e2 →
  uint64_other e1 = uint64_other e2 →
  aggregate e1 peers = Ok (pm1, t1) → aggregate e2 peers = Ok (pm2, t2) →
  t1 = t2 ∧
  ∀ a, match pm1 !! a, pm2 !! a with
       | Some d1, Some d2 =>
           txbytes d1 = txbytes d2 ∧ rxbytes d1 = rxbytes d2 ∧ ports d1 ≡ₚ ports d2
       | None, None => True
       | _, _ => False
       end.
Proof.
  intros Hr1 Hr2 Heq Hagg1 Hagg2. split.
  - unfold aggregate in Hagg1, Hagg2.
    rewrite (aggregate_loop_totalbytes e1 _ _ _ Hagg1),
            (aggregate_loop_totalbytes e2 _ _ _ Hagg2).
    rewrite (Zsum_perm _ _ _ (Hr1 peers)), (Zsum_perm _ _ _ (Hr2 peers)).
    f_equal. apply Zsum_ext. intros kv. unfold raw_bytes, link_tx, link_rx.
    by rewrite !(link_counter_ext e1 e2 _ _ Heq).
  - intros a.
    pose proof (aggregate_summary e1 peers pm1 t1 a Hagg1) as H1.
    pose proof (aggregate_summary e2 peers pm2 t2 a Hagg2) as H2.
    assert (Hperm : links_of a (range_peers e1 peers) ≡ₚ links_of a (range_peers e2 peers)).
    { apply links_of_perm. by rewrite (Hr1 peers), (Hr2 peers). }
    destruct (links_of a (range_peers e1 peers)) as [|f1 r1] eqn:Hh1;
      destruct (links_of a (range_peers e2 peers)) as [|f2 r2] eqn:Hh2.
    + by rewrite H1, H2.
    + by apply Permutation_nil_l in Hperm.
    + by apply Permutation_nil_r in Hperm.
    + destruct H1 as (d1 & -> & Hp1 & Htx1 & Hrx1 & _).
      destruct H2 as (d2 & -> & Hp2 & Htx2 & Hrx2 & _).
      rewrite Hp1, Hp2, Htx1, Htx2, Hrx1, Hrx2. split_and!.
      * f_equal. rewrite (Zsum_perm _ _ _ Hperm). apply Zsum_ext. intros kv.
        by apply link_counter_ext.
      * f_equal. rewrite (Zsum_perm _ _ _ Hperm). apply Zsum_ext. intros kv.
        by apply link_counter_ext.
      * by rewrite Hperm.
Qed.

Lemma aggregate_order_independent_witness :
  range_peers_sound (Sample.world "" None) ∧
  range_peers_sound (Sample.backwards (Sample.world "" None)) ∧
  aggregate (Sample.world "" None) Sample.three_links = Ok (Sample.three_summaries, 42) ∧
  aggregate (Sample.backwards (Sample.world "" None)) Sample.three_links
    = Ok (Sample.three_summaries_backwards, 42) ∧
  match Sample.three_summaries !! "200::1", Sample.three_summaries_backwards !! "200::1" with
  | Some d1, Some d2 =>
      txbytes d1 = txbytes d2 ∧ rxbytes d1 = rxbytes d2 ∧ ports d1 ≡ₚ ports d2
  | None, None => True
  | _, _ => False
  end.
Proof.
  assert (H1 : range_peers_sound (Sample.world "" None)) by (intros m; reflexivity).
  assert (H2 : range_peers_sound (Sample.backwards (Sample.world "" None))).
  { intros m. simpl. apply reverse_Permutation. }
  assert (Ha1 : aggregate (Sample.world "" None) Sample.three_links
                = Ok (Sample.three_summaries, 42)) by reflexivity.
  assert (Ha2 : aggregate (Sample.backwards (Sample.world "" None)) Sample.three_links
                = Ok (Sample.three_summaries_backwards, 42)) by reflexivity.
  split_and!; [done..|].
  by apply (aggregate_order_independent _ _ _ _ _ _ _ H1 H2 eq_refl Ha1 Ha2).
Defined.

(** ** When the aggregation panics *)

Lemma links_of_cons_eq a k v l :
  link_ip v = Some a → links_of a ((k, v) :: l) = (k, v) :: links_of a l.
Proof.
  intros Hip. unfold links_of. rewrite filter_cons. simpl.
  by rewrite decide_True.
Qed.

Lemma links_of_cons_ne a k v l :
  link_ip v ≠ Some a → links_of a ((k, v) :: l) = links_of a l.
Proof.
  intros Hip. unfold links_of. rewrite filter_cons. simpl.
  by rewrite decide_False.
Qed.

(** A typed record is absorbed when its address has a summary already, or
    when it has a coordinate path. *)
Lemma aggregate_step_typed (e : env) pm t k v ip :
  typed_link v = true → link_ip v = Some ip →
  (pm !! ip = None → is_Some (link_coords v)) →
  ∃ st', aggregate_step e (pm, t) (k, v) = Ok st'.
Proof.
  unfold typed_link, link_ip, link_coords, link_field, aggregate_step.
  destruct v as [| | | | |peer]; try discriminate. simpl.
  destruct (peer !! "ip") as [[| | |ip'| |]|]; try discriminate.
  destruct (peer !! "bytes_sent") as [[| |ftx| | |]|]; try discriminate.
  destruct (peer !! "bytes_recvd") as [[| |frx| | |]|]; try discriminate.
  intros _ [= ->] Hc. simpl. destruct (pm !! ip) as [d0|]; simpl; [eauto|].
  destruct (Hc eq_refl) as [c Hcoords]. 
  destruct (peer !! "coords") as [[| | |c'| |]|]; try discriminate. simpl. eauto.
Qed.

Lemma aggregate_loop_succeeds (e : env) l st :
  Forall (λ kv, typed_link kv.2 = true) l →
  (∀ a first rest, st.1 !! a = None → links_of a l = first :: rest →
                   is_Some (link_coords first.2)) →
  ∃ st', aggregate_loop e l st = Ok st'.
Proof.
  intros Htyped. revert st.
  induction Htyped as [|[k v] l Hv _ IH]; intros [pm t] Hfirst; simpl; [eauto|].
  simpl in Hv.
  assert (∃ ip, link_ip v = Some ip) as [ip Hip].
  { unfold typed_link in Hv. unfold link_ip.
    destruct (link_field "ip" v) as [[| | |ip| |]|]; try discriminate. eauto. }
  destruct (aggregate_step_typed e pm t k v ip Hv Hip) as [[pm1 t1] Hstep].
  { intros Hnone. apply (Hfirst ip (k, v) (links_of ip l) Hnone).
    by apply links_of_cons_eq. }
  rewrite Hstep. simpl. apply IH. simpl. intros a first rest Hnone Hhits.
  apply aggregate_step_inv in Hstep as (ip' & Hip' & -> & _ & _).
  assert (ip' = ip) as -> by congruence.
  destruct (decide (ip = a)) as [->|Hne].
  - by rewrite lookup_insert_eq in Hnone.
  - rewrite lookup_insert_ne in Hnone by done.
    apply (Hfirst a first rest Hnone). rewrite links_of_cons_ne; [done|congruence].
Qed.

(** X7. Which answers make the aggregation panic.  The loop over the raw
    links ends without a panic exactly when every record is an object with
    a string [ip] and numeric [bytes_sent] and [bytes_recvd], and for every
    address the record met first has a string [coords]; a later record of
    the same address needs no [coords]. *)
Theorem aggregate_succeeds_iff (e : env) (peers : gmap string json) :
  range_peers_sound e →
  (∃ st, aggregate e peers = Ok st) ↔
  map_Forall (λ _ v, typed_link v = true) peers ∧
  ∀ a first rest, links_of a (range_peers e peers) = first :: rest →
                  is_Some (link_coords first.2).
Proof.
  intros Hrange. unfold aggregate. split.
  - intros [[pm t] Hagg]. split.
    + intros k v Hk.
      pose proof (aggregate_loop_typed e _ _ _ Hagg) as Htyped.
      rewrite Forall_forall in Htyped. apply (Htyped (k, v)).
      rewrite (Hrange peers). by apply elem_of_map_to_list.
    + intros a first rest Hhits.
      by apply (aggregate_loop_first_coords e _ _ _ a _ _ Hagg (lookup_empty _) Hhits).
  - intros [Htyped Hfirst]. apply aggregate_loop_succeeds.
    + apply Forall_forall. intros [k v] Hin. simpl.
      rewrite (Hrange peers) in Hin. apply elem_of_map_to_list in Hin.
      by apply (Htyped k v).
    + intros a first rest _. apply Hfirst.
Qed.

Lemma aggregate_succeeds_iff_witness :
  range_peers_sound (Sample.world "" None) ∧
  map_Forall (λ _ v, typed_link v = true) Sample.three_links.
Proof.
  assert (Hs : range_peers_sound (Sample.world "" None)) by (intros m; reflexivity).
  split; [exact Hs|].
  apply (aggregate_succeeds_iff (Sample.world "" None) Sample.three_links Hs).
  by eexists.
Defined.

(** * Further properties of the rendering *)

Lemma wrap_multiple k : U64.wrap (k * U64.modulus) = 0.
Proof. unfold U64.wrap. apply Z_mod_mult. Qed.

(** The rendering loop on a peer map made by the aggregation. *)
Lemma render_loop_after_aggregate (e : env) (peers : gmap string json)
    (peermap : gmap string switchPortData) (totalbytes : Z) :
  range_peermap_sound e →
  aggregate e peers = Ok (peermap, totalbytes) →
  ∃ st, render_loop e totalbytes (range_peermap e peermap) render_init = Ok st ∧
        count st = Z.of_nat (size peermap) ∧
        offset st = totalbytes.
Proof.
  intros Hrange Hagg. unfold aggregate in Hagg.
  pose proof (aggregate_loop_ports e _ _ _ Hagg (map_Forall_empty _)) as Hports.
  simpl in Hports.
  destruct (render_loop_total e totalbytes (range_peermap e peermap) render_init)
    as [st Hst].
  { apply Forall_forall. intros [ip d] Hin. rewrite (Hrange peermap) in Hin.
    apply elem_of_map_to_list in Hin. by apply (Hports ip d). }
  exists st. destruct (render_loop_offset e _ _ _ _ Hst) as (Hoff & Hin & Hcount).
  split_and!; [done| |].
  - rewrite Hcount. simpl. by rewrite (Hrange peermap), length_map_to_list.
  - rewrite <- (wrap_small (offset st)) by (apply Hin; auto with u64).
    rewrite Hoff. simpl.
    rewrite (Zsum_perm _ _ _ (Hrange peermap)).
    destruct (aggregate_loop_cong e _ _ _ Hagg) as (j1 & _ & Hsum & _).
    simpl in Hsum. rewrite map_to_list_empty in Hsum. simpl in Hsum.
    rewrite (aggregate_loop_totalbytes e _ _ _ Hagg).
    by apply (wrap_eq_of_cong _ _ j1).
Qed.

(** X8. Rendering what was aggregated.  On a peer map made by the
    aggregation the rendering never panics ([peer.ports[0]] is always in
    range) and the loop runs once per summary.  The peer at position [i] of
    the visit adds one block to what was rendered before it: the chart
    with the number [i], the four series values with the offset of the
    peers before it, the peer's address, its coordinates and link ids, and
    its two byte counts; the rendered text of a non-empty map is made of
    these blocks and nothing else. *)
Theorem render_after_aggregate (e : env) (peers : gmap string json)
    (peermap : gmap string switchPortData) (totalbytes : Z) :
  range_peermap_sound e →
  aggregate e peers = Ok (peermap, totalbytes) →
  ∃ out st_end,
    render e peermap totalbytes = Ok out ∧
    render_loop e totalbytes (range_peermap e peermap) render_init = Ok st_end ∧
    count st_end = Z.of_nat (size peermap) ∧
    length (range_peermap e peermap) = size peermap ∧
    render_loop e totalbytes (take 0 (range_peermap e peermap)) render_init
      = Ok render_init ∧
    str render_init = "" ∧
    (peermap ≠ ∅ → out = str st_end) ∧
    ∀ i ip peer,
      range_peermap e peermap !! i = Some (ip, peer) →
      ∃ st st' ports_s rest,
        render_loop e totalbytes (take i (range_peermap e peermap)) render_init = Ok st ∧
        render_loop e totalbytes (take (S i) (range_peermap e peermap)) render_init
          = Ok st' ∧
        offset st = U64.wrap (Zsum summary_bytes (take i (range_peermap e peermap))) ∧
        ports_text peer = Ok ports_s ∧
        str st' = str st +:+
          "<div class='node'>" +:+ nl +:+
          "<div class='ct-chart ct-perfect-fourth' id='ct-" +:+ pretty (Z.of_nat i) +:+
            "'></div>" +:+ nl +:+
          "<script>" +:+ nl +:+
          "new Chartist.Pie('#ct-" +:+ pretty (Z.of_nat i) +:+ "', { series: [" +:+
            pretty (offset st) +:+ ", " +:+ pretty (txbytes peer) +:+ ", " +:+
            pretty (rxbytes peer) +:+ ", " +:+
            pretty (U64.wrap (totalbytes - offset st - txbytes peer - rxbytes peer)) +:+
            "] }, { donut: true, donutWidth: 25, donutSolid: true, startbytes: 0, showLabel: false });" +:+ nl +:+
          "</script>" +:+ nl +:+
          "<div id='ipv6'>" +:+ ip +:+ "</div>" +:+ nl +:+
          "<div>" +:+ shown_coords peer +:+ " attached to " +:+ ports_s +:+ "</div>" +:+ nl +:+
          "<div>" +:+ humanize_Bytes e (txbytes peer) +:+ " sent</div>" +:+ nl +:+
          "<div>" +:+ humanize_Bytes e (rxbytes peer) +:+ " received</div>" +:+ nl +:+
          "</div>" +:+ nl ∧
        str st_end = str st' +:+ rest.
Proof.
  intros Hrange Hagg.
  destruct (render_loop_after_aggregate e peers peermap totalbytes Hrange Hagg)
    as (st_end & Hend & Hcount & _).
  assert (Hall : Forall (λ kd, ports kd.2 ≠ []) (range_peermap e peermap)).
  { unfold aggregate in Hagg.
    pose proof (aggregate_loop_ports e _ _ _ Hagg (map_Forall_empty _)) as Hports.
    apply Forall_forall. intros [ip d] Hin. rewrite (Hrange peermap) in Hin.
    apply elem_of_map_to_list in Hin. by apply (Hports ip d). }
  exists (if (size peermap =? 0)%nat then str st_end +:+ no_peers_notice else str st_end),
    st_end.
  split_and!.
  - unfold render. by rewrite Hend.
  - done.
  - done.
  - by rewrite (Hrange peermap), length_map_to_list.
  - done.
  - done.
  - intros Hne. destruct (size peermap =? 0)%nat eqn:Hsz; [|done].
    apply Nat.eqb_eq, map_size_empty_iff in Hsz. done.
  - intros i ip peer Hi.
    destruct (render_loop_block e totalbytes _ i ip peer Hall Hi)
      as (st & st' & st_end' & ports_s & rest & Hpre & Hnext & Hend' & Hoff & Hp
          & Hstr & Hrest & _).
    rewrite Hend in Hend'. injection Hend' as <-.
    exists st, st', ports_s, rest. by split_and!.
Qed.

Lemma render_after_aggregate_witness :
  range_peermap_sound (Sample.world "" None) ∧
  aggregate (Sample.world "" None) Sample.three_links = Ok (Sample.three_summaries, 42) ∧
  ∃ out st_end,
    render (Sample.world "" None) Sample.three_summaries 42 = Ok out ∧
    out = str st_end ∧
    count st_end = 2 ∧
    contains "<div class='ct-chart ct-perfect-fourth' id='ct-1'></div>" out = true ∧
    contains "new Chartist.Pie('#ct-1', { series: [32, 5, 5, 0] }" out = true.
Proof.
  assert (Hs : range_peermap_sound (Sample.world "" None)) by (intros m; reflexivity).
  assert (Hagg : aggregate (Sample.world "" None) Sample.three_links
                 = Ok (Sample.three_summaries, 42)) by reflexivity.
  split_and!; [exact Hs|exact Hagg|].
  destruct (render_after_aggregate (Sample.world "" None) Sample.three_links
              Sample.three_summaries 42 Hs Hagg)
    as (out & st_end & Hout & _ & Hc & _ & _ & _ & Hne & Hblocks).
  exists out, st_end.
  assert (Hstr : out = str st_end) by (by apply Hne).
  destruct (Hblocks 1%nat "200::2"
              {| ports := ["2"]; txbytes := 5; rxbytes := 5; coords := "[]" |} eq_refl)
    as (st & st' & ports_s & rest & _ & _ & Hoff & _ & Hblock & Hrest).
  assert (offset st = 32) as Ho by (rewrite Hoff; reflexivity).
  rewrite Ho in Hblock.
  split_and!; [exact Hout|exact Hstr|by rewrite Hc| |].
  - rewrite Hstr, Hrest, Hblock, !append_assoc. apply contains_skip. by vm_compute.
  - rewrite Hstr, Hrest, Hblock, !append_assoc. apply contains_skip. by vm_compute.
Defined.

(** X9. The pie charts close.  Whatever the byte counts, after the last
    peer [offset] equals [totalbytes], and the remainder of the peer
    rendered last is 0: the charts of all peers together cover the whole
    circle, wrap-around included. *)
Theorem last_remainder_zero (e : env) (peers : gmap string json)
    (peermap : gmap string switchPortData) (totalbytes : Z) :
  range_peermap_sound e →
  aggregate e peers = Ok (peermap, totalbytes) →
  (∃ st, render_loop e totalbytes (range_peermap e peermap) render_init = Ok st ∧
         offset st = totalbytes) ∧
  ∀ i ip peer,
    range_peermap e peermap !! i = Some (ip, peer) →
    S i = length (range_peermap e peermap) →
    ∃ st, render_loop e totalbytes (take i (range_peermap e peermap)) render_init = Ok st ∧
          chart_series totalbytes (offset st) peer !! 3%nat = Some 0.
Proof.
  intros Hrange Hagg.
  destruct (render_loop_after_aggregate e peers peermap totalbytes Hrange Hagg)
    as (st_end & Hend & _ & Hoff_end).
  split; [eauto|]. intros i ip peer Hi Hlast.
  destruct (render_loop_at e totalbytes _ st_end i ip peer Hend Hi)
    as (st & st' & Hpre & Hstep & Hnext & Hoff & _).
  exists st. split; [done|].
  rewrite Hlast, firstn_all in Hnext. rewrite Hend in Hnext. injection Hnext as <-.
  apply render_step_inv in Hstep as (_ & _ & _ & _ & Ho).
  rewrite Hoff_end in Ho. unfold chart_series. simpl. f_equal.
  unfold U64.sub. unfold U64.add in Ho.
  destruct (wrap_cong (rxbytes peer + txbytes peer)) as [j1 Hj1]. rewrite Hj1 in Ho.
  destruct (wrap_cong (offset st + (rxbytes peer + txbytes peer + j1 * U64.modulus)))
    as [j2 Hj2]. rewrite Hj2 in Ho.
  destruct (wrap_cong (totalbytes - offset st)) as [j3 ->].
  destruct (wrap_cong (totalbytes - offset st + j3 * U64.modulus - txbytes peer))
    as [j4 ->].
  rewrite <- (wrap_multiple (j1 + j2 + j3 + j4)). f_equal. lia.
Qed.

Lemma last_remainder_zero_witness :
  range_peermap_sound (Sample.world "" None) ∧
  aggregate (Sample.world "" None) Sample.heavy_links = Ok (Sample.heavy_summaries, 0) ∧
  ∃ ip peer,
    range_peermap (Sample.world "" None) Sample.heavy_summaries !! 1%nat = Some (ip, peer) ∧
    chart_series 0 (2 ^ 63) peer !! 3%nat = Some 0.
Proof.
  assert (Hs : range_peermap_sound (Sample.world "" None)) by (intros m; reflexivity).
  assert (Hagg : aggregate (Sample.world "" None) Sample.heavy_links
                 = Ok (Sample.heavy_summaries, 0)) by reflexivity.
  split_and!; [exact Hs|exact Hagg|].
  exists "200::2", {| ports := ["2"]; txbytes := 2 ^ 63; rxbytes := 0; coords := "[2]" |}.
  assert (Hi : range_peermap (Sample.world "" None) Sample.heavy_summaries !! 1%nat
               = Some ("200::2", {| ports := ["2"]; txbytes := 2 ^ 63; rxbytes := 0;
                                    coords := "[2]" |})) by reflexivity.
  split; [exact Hi|].
  destruct (last_remainder_zero (Sample.world "" None) Sample.heavy_links
              Sample.heavy_summaries 0 Hs Hagg) as [_ Hlast].
  destruct (Hlast 1%nat _ _ Hi eq_refl) as (st & Hst & Hrem).
  assert (Hoff : offset st = 2 ^ 63).
  { apply (f_equal (λ r, match r with Ok s => offset s | Panic => 0 end)) in Hst.
    symmetry. exact Hst. }
  by rewrite Hoff in Hrem.
Defined.

(** * Further properties of the request handlers *)

(** X10. A well-formed answer gives one page.  When the admin socket
    answered with status "success" and a [response.switchpeers] object whose
    records are well formed, the handler neither panics nor exits: it
    writes once, the template with both tokens substituted, the peers
    being the rendering of the aggregated links. *)
Theorem well_formed_answer_one_page (e : env) (cfg : config) (b : string)
    (m response peers : gmap string json) :
  range_peers_sound e → range_peermap_sound e →
  answered e cfg b m →
  m !! "status" = Some (JString "success") →
  m !! "response" = Some (JObject response) →
  response !! "switchpeers" = Some (JObject peers) →
  map_Forall (λ _ v, well_formed_link v = true) peers →
  ∃ peermap totalbytes s,
    aggregate e peers = Ok (peermap, totalbytes) ∧
    render e peermap totalbytes = Ok s ∧
    handler e cfg =
    Returned [fmt_Sprintf e (Replace (Replace b "%HOSTNAME%" (nodename cfg)) "%PEERS%" s)].
Proof.
  intros Hr1 Hr2 Hans Hstatus Hresp Hpeers Hwf.
  destruct (aggregate_total e peers Hr1 Hwf) as [[pm t] Hagg].
  destruct (render_loop_after_aggregate e peers pm t Hr2 Hagg) as (st & Hst & _).
  assert (Hrender : ∃ s, render e pm t = Ok s)
    by (unfold render; rewrite Hst; simpl; eauto).
  destruct Hrender as [s Hrender]. exists pm, t, s. split_and!; [done..|].
  rewrite (handler_answered e cfg b m Hans), Hstatus. simpl.
  unfold peers_page. rewrite Hresp. simpl. rewrite Hpeers. simpl.
  rewrite Hagg. simpl. by rewrite Hrender.
Qed.

Lemma well_formed_answer_one_page_witness :
  answered (Sample.world Sample.page (Some (Sample.reply Sample.three_links))) Sample.cfg
    Sample.page (Sample.reply Sample.three_links) ∧
  ∃ page,
    handler (Sample.world Sample.page (Some (Sample.reply Sample.three_links))) Sample.cfg
    = Returned [page].
Proof.
  assert (Hans : answered (Sample.world Sample.page (Some (Sample.reply Sample.three_links)))
                   Sample.cfg Sample.page (Sample.reply Sample.three_links)).
  { split_and!; [reflexivity|by exists Sample.socket|by eexists|done|reflexivity]. }
  split; [exact Hans|].
  destruct (well_formed_answer_one_page
              (Sample.world Sample.page (Some (Sample.reply Sample.three_links)))
              Sample.cfg Sample.page (Sample.reply Sample.three_links)
              (<["switchpeers" := JObject Sample.three_links]> ∅) Sample.three_links)
    as (pm & t & s & _ & _ & Hpage);
    [intros m; reflexivity|intros m; reflexivity|exact Hans|reflexivity..| |eauto].
  unfold Sample.three_links. repeat apply map_Forall_insert_2; try reflexivity.
  apply map_Forall_empty.
Defined.

(** X11. A successful answer of the wrong shape.  With status "success",
    the handler panics when [response] is absent or not an object, when
    its [switchpeers] is absent or not an object, and when some raw link
    is not an object with a string [ip] and numeric [bytes_sent] and
    [bytes_recvd]: nothing is written. *)
Theorem misshapen_answer_panics (e : env) (cfg : config) (b : string)
    (m : gmap string json) :
  answered e cfg b m →
  m !! "status" = Some (JString "success") →
  ((∀ r, m !! "response" ≠ Some (JObject r)) → handler e cfg = Panicked) ∧
  (∀ r, m !! "response" = Some (JObject r) →
        (∀ p, r !! "switchpeers" ≠ Some (JObject p)) → handler e cfg = Panicked) ∧
  (∀ r peers k v,
     m !! "response" = Some (JObject r) → r !! "switchpeers" = Some (JObject peers) →
     range_peers_sound e → peers !! k = Some v → typed_link v = false →
     handler e cfg = Panicked).
Proof.
  intros Hans Hstatus. rewrite (handler_answered e cfg b m Hans), Hstatus. simpl.
  unfold peers_page. split_and!.
  - intros Hno. destruct (m !! "response") as [[| | | | |r]|]; try done.
    by destruct (Hno r).
  - intros r -> Hno. simpl.
    destruct (r !! "switchpeers") as [[| | | | |p]|]; try done. by destruct (Hno p).
  - intros r peers k v -> Hpeers Hrange Hk Hv. simpl. rewrite Hpeers. simpl.
    destruct (aggregate e peers) as [[pm t]|] eqn:Hagg; [|done]. exfalso.
    pose proof (aggregate_loop_typed e _ _ _ Hagg) as Htyped.
    rewrite Forall_forall in Htyped.
    assert ((k, v) ∈ range_peers e peers) as Hin
      by (rewrite (Hrange peers); by apply elem_of_map_to_list).
    apply Htyped in Hin. simpl in Hin. congruence.
Qed.

Lemma misshapen_answer_panics_witness :
  answered (Sample.world Sample.page (Some (<["status" := JString "success"]> request_map)))
    Sample.cfg Sample.page (<["status" := JString "success"]> request_map) ∧
  handler (Sample.world Sample.page (Some (<["status" := JString "success"]> request_map)))
    Sample.cfg = Panicked.
Proof.
  assert (Hans : answered
            (Sample.world Sample.page (Some (<["status" := JString "success"]> request_map)))
            Sample.cfg Sample.page (<["status" := JString "success"]> request_map)).
  { split_and!; [reflexivity|by exists Sample.socket|by eexists|done|reflexivity]. }
  split; [exact Hans|].
  destruct (misshapen_answer_panics _ _ _ _ Hans eq_refl) as (Hno & _).
  apply Hno. intros r Hr. discriminate Hr.
Defined.

(** X12. What is fatal to the process.  The dashboard handler ends the
    process exactly when the template file cannot be read or the admin
    address does not parse; no failure of the admin socket or of its answer
    is fatal. *)
Theorem handler_fatal_iff (e : env) (cfg : config) :
  handler e cfg = Exit ↔
  ReadFile e "template.html" = None ∨ url_Parse e (adminaddr cfg) = None.
Proof.
  split.
  - unfold handler, error_page. intros Hexit.
    destruct (ReadFile e "template.html") as [b|]; [|by left].
    destruct (url_Parse e (adminaddr cfg)) as [admin|]; [|by right].
    exfalso. repeat case_match; discriminate.
  - intros [H|H]; [by apply handler_no_template|by apply handler_bad_address].
Qed.

(** X13. What is written.  The handler writes to the response at most
    once, and it returns without having written anything exactly when
    [net.Dial] fails. *)
Theorem handler_writes (e : env) (cfg : config) :
  (∀ ws, handler e cfg = Returned ws → (length ws ≤ 1)%nat) ∧
  (handler e cfg = Returned [] ↔
   ∃ b admin,
     ReadFile e "template.html" = Some b ∧
     url_Parse e (adminaddr cfg) = Some admin ∧
     net_Dial e (Scheme admin)
       (if String.eqb (Scheme admin) "unix" then Path admin else Host admin) = false).
Proof.
  split.
  - intros ws. unfold handler, error_page.
    repeat case_match; intros [= <-]; simpl; lia.
  - split.
    + unfold handler, error_page. intros Hret.
      destruct (ReadFile e "template.html") as [b|]; [|discriminate].
      destruct (url_Parse e (adminaddr cfg)) as [admin|]; [|discriminate].
      exists b, admin. split_and!; [done..|].
      destruct (net_Dial _ _ _); [|done]. exfalso. simpl in Hret.
      repeat case_match; discriminate.
    + intros (b & admin & Hb & Hurl & Hdial).
      by apply (handler_dial_failure e cfg b admin).
Qed.

(** ** The static files *)

Lemma Split_slash_nonempty s : Split_slash s ≠ [].
Proof. destruct s as [|c s]; simpl; [done|]. repeat case_match; done. Qed.

(** A text without a slash is one token. *)
Lemma Split_slash_free name : free_of "/" name = true → Split_slash name = [name].
Proof.
  induction name as [|c name IH]; [done|]. intros Hfree.
  change (free_of "/" (String c name))
    with (negb (Ascii.eqb "/" c) && free_of "/" name) in Hfree.
  apply andb_true_iff in Hfree as [Hc Hname]. apply negb_true_iff in Hc.
  rewrite Ascii.eqb_sym in Hc. cbn [Split_slash]. by rewrite Hc, (IH Hname).
Qed.

(** Splitting at a slash splits the list of tokens. *)
Lemma Split_slash_app d n :
  Split_slash (d +:+ "/" +:+ n) = Split_slash d ++ Split_slash n.
Proof.
  induction d as [|c d IH]; [done|]. rewrite append_cons. cbn [Split_slash].
  rewrite IH. destruct (Ascii.eqb c "/"); [done|].
  destruct (Split_slash d) as [|t ts] eqn:Hd; [|done].
  by destruct (Split_slash_nonempty d).
Qed.

(** X14. The file served by [filehandler].  The handler never panics (the
    split of a path has a last token); the file it reads is named by the
    text after the last slash of the path, whatever stands before it; a
    file that cannot be read ends the process, otherwise its contents are
    written as they are. *)
Theorem filehandler_last_segment (e : env) :
  (∀ path, filehandler e path ≠ Panicked) ∧
  (∀ dir name,
     free_of "/" name = true →
     filehandler e (dir +:+ "/" +:+ name) =
     match ReadFile e name with
     | None => Exit
     | Some b => Returned [b]
     end) ∧
  (∀ name,
     free_of "/" name = true →
     filehandler e name =
     match ReadFile e name with
     | None => Exit
     | Some b => Returned [b]
     end).
Proof.
  split_and!.
  - intros path. unfold filehandler.
    destruct (last (Split_slash path)) as [name|] eqn:Hlast.
    + by destruct (ReadFile e name).
    + apply last_None in Hlast. by destruct (Split_slash_nonempty path).
  - intros dir name Hname. unfold filehandler.
    rewrite Split_slash_app, (Split_slash_free name Hname).
    by rewrite last_snoc.
  - intros name Hname. unfold filehandler. by rewrite (Split_slash_free name Hname).
Qed.

Lemma filehandler_last_segment_witness :
  free_of "/" "style.css" = true ∧
  filehandler (Sample.world Sample.page None) "/assets/v2/style.css"
  = Returned ["body { margin: 0 }"].
Proof.
  split; [reflexivity|].
  destruct (filehandler_last_segment (Sample.world Sample.page None)) as (_ & Hseg & _).
  apply (Hseg "/assets/v2" "style.css"). reflexivity.
Defined.

(** A text without a slash does not end with one. *)
Lemma last_byte_free name : free_of "/" name = true → last_byte name ≠ Some "/"%char.
Proof.
  induction name as [|c name IH]; [done|]. intros Hfree.
  change (free_of "/" (String c name))
    with (negb (Ascii.eqb "/" c) && free_of "/" name) in Hfree.
  apply andb_true_iff in Hfree as [Hc Hname]. apply negb_true_iff in Hc.
  destruct name as [|c' name]; [|by apply IH].
  simpl. intros [= ->]. by rewrite Ascii.eqb_refl in Hc.
Qed.

(** A rooted path of one ordinary element is in canonical form. *)
Lemma cleanPath_single name :
  free_of "/" name = true → name ≠ "" → name ≠ "." → name ≠ ".." →
  cleanPath ("/" +:+ name) = "/" +:+ name.
Proof.
  intros Hfree Hne Hdot Hdots. unfold cleanPath.
  rewrite (prefix_append "/" name).
  change ("/" +:+ name) with (String "/" name).
  change (String.eqb (String "/" name) "") with false. cbv iota.
  cbn [Split_slash]. change (Ascii.eqb "/" "/") with true. cbv iota.
  rewrite (Split_slash_free name Hfree). cbn [clean_elements].
  change (String.eqb "" "") with true. cbn [orb]. cbn [clean_elements].
  apply String.eqb_neq in Hne, Hdot, Hdots. rewrite Hne, Hdot, Hdots.
  cbn [orb clean_elements]. change (reverse [name]) with [name].
  change (String.concat "/" [name]) with name.
  rewrite bool_decide_eq_false_2; [done|].
  destruct name as [|c name]; [by rewrite String.eqb_refl in Hne|].
  change (last_byte (String "/" (String c name))) with (last_byte (String c name)).
  by apply last_byte_free.
Qed.

(** The patterns that lead to [filehandler]. *)
Lemma dispatch_StaticFile path :
  dispatch path = StaticFile →
  path = "/style.css" ∨ path = "/chartist.min.css" ∨ path = "/chartist.min.js".
Proof.
  unfold dispatch. destruct (String.eqb path "*"); [discriminate|].
  destruct (negb _); [discriminate|].
  destruct (list_find _ mux) as [[i [pat r]]|] eqn:Hfind; [|discriminate].
  apply list_find_Some in Hfind as (Hi & [Hne Heq] & _). simpl in Hne, Heq.
  intros ->. unfold mux in Hi.
  destruct i as [|[|[|[|i]]]]; simpl in Hi; [| | | |done];
    injection Hi as <-; subst; auto; discriminate.
Qed.

(** A path in canonical form is handled by the program. *)
Lemma dispatch_canonical path :
  cleanPath path = path → dispatch path = Dashboard ∨ dispatch path = StaticFile.
Proof.
  intros Hclean. unfold dispatch.
  destruct (String.eqb path "*") eqn:Hstar.
  { apply String.eqb_eq in Hstar as ->. vm_compute in Hclean. discriminate. }
  rewrite Hclean, String.eqb_refl. cbn [negb].
  destruct (list_find _ mux) as [[i [pat r]]|] eqn:Hfind; [|by left].
  apply list_find_Some in Hfind as (Hi & _ & _). unfold mux in Hi.
  destruct i as [|[|[|[|i]]]]; simpl in Hi; [| | | |done];
    injection Hi as <- <-; auto.
Qed.

(** X15. The routes, for requests of any method but CONNECT whose path is
    sent without percent-escapes.  The mux first brings the request path
    into canonical form: a path with a repeated slash or with a ["."] or
    [".."] element is answered with a redirect to its canonical form, and
    no handler of the program runs.  A canonical path that is one of the three
    registered file paths is answered by [filehandler] with the file of
    that name in the working directory, and [filehandler] is reached by no
    other path; every other canonical path, not only ["/"], is answered by
    the dashboard handler and so queries the admin socket.  A rooted path
    of one element other than ["."] and [".."] is canonical. *)
Theorem routes (e : env) (cfg : config) :
  (∀ path,
     free_of "%" path = true → path ≠ "*" → cleanPath path ≠ path →
     serve e cfg path = Redirected (cleanPath path)) ∧
  (∀ path,
     free_of "%" path = true → cleanPath path = path →
     path ≠ "/style.css" → path ≠ "/chartist.min.css" → path ≠ "/chartist.min.js" →
     serve e cfg path = handler e cfg) ∧
  (∀ name,
     name = "style.css" ∨ name = "chartist.min.css" ∨ name = "chartist.min.js" →
     serve e cfg ("/" +:+ name) =
     match ReadFile e name with
     | None => Exit
     | Some b => Returned [b]
     end) ∧
  (∀ path,
     dispatch path = StaticFile →
     path = "/style.css" ∨ path = "/chartist.min.css" ∨ path = "/chartist.min.js") ∧
  (∀ name,
     free_of "/" name = true → name ≠ "" → name ≠ "." → name ≠ ".." →
     cleanPath ("/" +:+ name) = "/" +:+ name) ∧
  serve e cfg "//style.css" = Redirected "/style.css" ∧
  serve e cfg "/static/../style.css" = Redirected "/style.css" ∧
  serve e cfg "/./" = Redirected "/" ∧
  serve e cfg "" = Redirected "/" ∧
  serve e cfg "/style.css/" = handler e cfg ∧
  serve e cfg "*" = Refused.
Proof.
  split_and!.
  - intros path _ Hstar Hclean. unfold serve, dispatch.
    apply String.eqb_neq in Hstar, Hclean. by rewrite Hstar, Hclean.
  - intros path _ Hclean H1 H2 H3. unfold serve.
    destruct (dispatch_canonical path Hclean) as [-> | Hd]; [done|].
    apply dispatch_StaticFile in Hd as [?|[?|?]]; done.
  - intros name [-> | [-> | ->]]; reflexivity.
  - apply dispatch_StaticFile.
  - apply cleanPath_single.
  - reflexivity.
  - reflexivity.
  - reflexivity.
  - reflexivity.
  - reflexivity.
  - reflexivity.
Qed.

Lemma routes_witness :
  free_of "%" "/static//style.css" = true ∧
  cleanPath "/static//style.css" ≠ "/static//style.css" ∧
  serve (Sample.world Sample.page None) Sample.cfg "/static//style.css"
  = Redirected "/static/style.css" ∧
  serve (Sample.world Sample.page None) Sample.cfg "/favicon.ico"
  = handler (Sample.world Sample.page None) Sample.cfg ∧
  serve (Sample.world Sample.page None) Sample.cfg "/style.css"
  = Returned ["body { margin: 0 }"].
Proof.
  destruct (routes (Sample.world Sample.page None) Sample.cfg)
    as (Hredirect & Hdash & Hfile & _).
  assert (Hne : cleanPath "/static//style.css" ≠ "/static//style.css") by discriminate.
  split_and!.
  - reflexivity.
  - exact Hne.
  - by apply (Hredirect "/static//style.css").
  - by apply Hdash.
  - apply (Hfile "style.css"). by left.
Defined.

(** * Further properties of the decoding of counters *)

(** A positive number is below the power of two of its number of digits. *)
Lemma digits2_pos_upper m : Z.pos m < 2 ^ Z.pos (digits2_pos m).
Proof.
  induction m as [m IH|m IH|]; simpl; [| |done];
    rewrite Pos2Z.inj_succ, Z.pow_succ_r by lia; lia.
Qed.

(** The iteration of [SpecFloat] is the iteration of [Pos]. *)
Lemma iter_pos_Pos_iter {A} (f : A → A) n x : SpecFloat.iter_pos f n x = Pos.iter f x n.
Proof.
  revert x. induction n as [n IH|n IH|]; intros x; cbn [SpecFloat.iter_pos]; [| |done].
  - rewrite !IH, !Pos.iter_swap. reflexivity.
  - rewrite !IH. reflexivity.
Qed.

(** Shifting out bits that are zero is exact. *)
Lemma shr_1_iter_exact q n :
  SpecFloat.iter_pos shr_1 n {| shr_m := Z.pos (Pos.iter xO q n); shr_r := false; shr_s := false |}
  = {| shr_m := Z.pos q; shr_r := false; shr_s := false |}.
Proof.
  rewrite iter_pos_Pos_iter.
  induction n as [|n IH] using Pos.peano_ind.
  - reflexivity.
  - rewrite Pos.iter_succ_r, (Pos.iter_succ n _ xO). simpl. exact IH.
Qed.

(** A mantissa of 53 bits followed by zero bits is not rounded. *)
Lemma binary_round_aux_shifted q s :
  Z.pos (digits2_pos q) = 53 → 0 < Z.pos s ≤ 11 →
  binary_round_aux 53 1024 false (Z.pos (Pos.iter xO q s)) 0 loc_Exact
  = S754_finite false q (Z.pos s).
Proof.
  intros Hq Hs.
  assert (Hd : Z.pos (digits2_pos (Pos.iter xO q s)) = 53 + Z.pos s)
    by (rewrite digits2_pos_iter_xO; lia).
  unfold binary_round_aux, shr_fexp. cbn [Zdigits2 shr_record_of_loc]. rewrite Hd.
  assert (Hf : fexp 53 1024 (53 + Z.pos s + 0) - 0 = Z.pos s) by (unfold fexp, emin; lia).
  rewrite Hf. cbn [shr]. rewrite shr_1_iter_exact.
  cbn [shr_m loc_of_shr_record round_nearest_even Zdigits2 shr_record_of_loc].
  rewrite Hq.
  assert (Hf3 : fexp 53 1024 (53 + (0 + Z.pos s)) - (0 + Z.pos s) = 0)
    by (unfold fexp, emin; lia).
  rewrite Hf3. cbn [shr shr_m].
  destruct (0 + Z.pos s <=? 1024 - 53) eqn:Hle; [done|]. apply Z.leb_gt in Hle. lia.
Qed.

Lemma float64_of_Z_shifted q s :
  Z.pos (digits2_pos q) = 53 → 0 < Z.pos s ≤ 11 →
  float64_of_Z (Z.pos (Pos.iter xO q s)) = S754_finite false q (Z.pos s).
Proof.
  intros Hq Hs. unfold float64_of_Z, binary_normalize, binary_round.
  assert (Hd : Z.pos (digits2_pos (Pos.iter xO q s)) = 53 + Z.pos s)
    by (rewrite digits2_pos_iter_xO; lia).
  rewrite Hd.
  assert (Hf : fexp 53 1024 (53 + Z.pos s + 0) = Z.pos s) by (unfold fexp, emin; lia).
  rewrite Hf. unfold shl_align. cbn [Z.sub Z.add Z.opp Z.pos_sub].
  by apply binary_round_aux_shifted.
Qed.

Lemma digits2_pos_53 q : 2 ^ 52 ≤ Z.pos q < 2 ^ 53 → Z.pos (digits2_pos q) = 53.
Proof.
  intros [Hlo Hhi]. pose proof (digits2_pos_le_53 q Hhi) as Hle.
  destruct (Z.le_gt_cases 53 (Z.pos (digits2_pos q))) as [|Hlt]; [lia|].
  pose proof (digits2_pos_upper q) as Hup.
  assert (2 ^ Z.pos (digits2_pos q) ≤ 2 ^ 52) by (apply Z.pow_le_mono_r; lia).
  lia.
Qed.

Lemma to_uint64_shifted (e : env) p k :
  0 ≤ k → 0 < p < 2 ^ 53 → p * 2 ^ k < 2 ^ 64 →
  to_uint64 e (float64_of_Z (p * 2 ^ k)) = p * 2 ^ k.
Proof.
  intros Hk. revert p. pattern k. apply natlike_ind; [| |exact Hk]; clear k Hk.
  - intros p Hp _. rewrite Z.mul_1_r. apply to_uint64_float64_of_Z. lia.
  - intros k Hk IH p Hp Hlt. rewrite Z.pow_succ_r in * by done.
    destruct (Z.lt_ge_cases p (2 ^ 52)) as [Hsmall|Hbig].
    + replace (p * (2 * 2 ^ k)) with ((2 * p) * 2 ^ k) in * by lia.
      apply IH; lia.
    + destruct p as [|q|q]; try lia.
      assert (Hq : Z.pos (digits2_pos q) = 53) by (apply digits2_pos_53; lia).
      assert (Hk11 : Z.succ k ≤ 11).
      { destruct (Z.le_gt_cases (Z.succ k) 11) as [|Hgt]; [done|]. exfalso.
        assert (2 ^ 12 ≤ 2 * 2 ^ k).
        { rewrite <- Z.pow_succ_r by done. apply Z.pow_le_mono_r; lia. }
        assert (2 ^ 52 * 2 ^ 12 ≤ Z.pos q * (2 * 2 ^ k)) by (apply Z.mul_le_mono_nonneg; lia).
        change (2 ^ 52 * 2 ^ 12) with (2 ^ 64) in *. lia. }
      rewrite <- Z.pow_succ_r in * by done.
      destruct (Z.succ k) as [|s|s] eqn:Hs; try lia.
      rewrite <- Zpos_iter_xO, float64_of_Z_shifted by lia.
      unfold to_uint64, uint64_of_float64, trunc_magnitude.
      rewrite Z.shiftl_mul_pow2 by lia.
      destruct (Z.pos q * 2 ^ Z.pos s <? U64.modulus) eqn:Hlt64;
        [by rewrite Zpos_iter_xO|].
      apply Z.ltb_ge in Hlt64. unfold U64.modulus in Hlt64. lia.
Qed.

(** X16. Counters of up to 53 significant bits.  Every counter below
    [2^64] of the form [p * 2^k] with [p < 2^53] passes the decoding into
    float64 and the conversion to uint64 unchanged; this covers the
    integers below [2^53] and, beyond them, the multiples of a power of
    two such as [2^63]. *)
Theorem wide_counters_exact (e : env) (p k : Z) :
  0 < p < 2 ^ 53 → 0 ≤ k → p * 2 ^ k < 2 ^ 64 →
  to_uint64 e (float64_of_Z (p * 2 ^ k)) = p * 2 ^ k ∧
  ∀ ip recvd c,
    link_tx e (link_record ip (p * 2 ^ k) recvd c) = p * 2 ^ k ∧
    link_rx e (link_record ip recvd (p * 2 ^ k) c) = p * 2 ^ k.
Proof.
  intros Hp Hk Hlt.
  pose proof (to_uint64_shifted e p k Hk Hp Hlt) as Hexact.
  split; [done|]. intros ip recvd c. split.
  - unfold link_tx, link_counter, link_field, link_record.
    by rewrite lookup_insert_ne, lookup_insert_eq by done.
  - unfold link_rx, link_counter, link_field, link_record.
    by rewrite !lookup_insert_ne, lookup_insert_eq by done.
Qed.

Lemma wide_counters_exact_witness :
  0 < 3 < 2 ^ 53 ∧ 3 * 2 ^ 62 < 2 ^ 64 ∧
  to_uint64 (Sample.world "" None) (float64_of_Z (3 * 2 ^ 62)) = 3 * 2 ^ 62.
Proof.
  split_and!; [by vm_compute..|].
  by apply (wide_counters_exact (Sample.world "" None) 3 62).
Defined.

(** ** A template without tokens *)

Lemma peers_page_inv (e : env) (cfg : config) b m page :
  peers_page e cfg b m = Ok page →
  ∃ s, page =
       fmt_Sprintf e (Replace (Replace b "%HOSTNAME%" (nodename cfg)) "%PEERS%" s).
Proof.
  unfold peers_page.
  destruct (as_object (m !! "response")) as [r|]; simpl; [|discriminate].
  destruct (as_object (r !! "switchpeers")) as [p|]; simpl; [|discriminate].
  destruct (aggregate e p) as [agg|]; simpl; [|discriminate].
  destruct (render e agg.1 agg.2) as [s|]; simpl; [|discriminate].
  intros [= <-]. eauto.
Qed.

(** X17. A template without a percent sign.  When the template holds
    neither token (no percent sign at all), whatever the handler writes is
    the template itself: the peers and every error message are dropped
    without notice. *)
Theorem template_without_tokens (e : env) (cfg : config) (b : string) (ws : list string) :
  ReadFile e "template.html" = Some b →
  free_of "%" b = true →
  handler e cfg = Returned ws →
  ws = [] ∨ ws = [fmt_Sprintf e b].
Proof.
  intros Hb Hfree. unfold handler, error_page. rewrite Hb.
  assert (Herr : ∀ msg, Replace b "%PEERS%" msg = b)
    by (intros msg; by apply Replace_free).
  repeat case_match; try discriminate; intros [= <-]; rewrite ?Herr; auto.
  all: match goal with H : peers_page _ _ _ _ = Ok _ |- _ =>
         apply peers_page_inv in H as [fragment ->] end.
  all: right; by rewrite (Replace_free "%" "HOSTNAME%"), Herr.
Qed.

Lemma template_without_tokens_witness :
  ReadFile (Sample.run (λ s, s) "<h1>status</h1>" true "" None) "template.html"
    = Some "<h1>status</h1>" ∧
  handler (Sample.run (λ s, s) "<h1>status</h1>" true "" None) Sample.cfg
    = Returned ["<h1>status</h1>"].
Proof.
  split; [reflexivity|].
  destruct (template_without_tokens (Sample.run (λ s, s) "<h1>status</h1>" true "" None)
              Sample.cfg "<h1>status</h1>"
              ["<h1>status</h1>"] eq_refl eq_refl eq_refl) as [Hnil|Hone].
  - discriminate Hnil.
  - reflexivity.
Defined.
